(** * Wrye Bash, brec: form identifiers and common subrecords

    A shallow embedding of the parts of [Mopy/bash/brec/utils_constants.py]
    and [Mopy/bash/brec/common_subrecords.py] that deal with form ids
    ([FormId], [_NoneFid], [_Tes4Fid], [_DummyFid]), the spell flags and the
    DATA / MODS / voice subrecords, together with the properties the
    specification states about them.

    Python integers are unbounded, so they are modelled as [Z]; [bytes]
    objects are lists of [byte]; exceptions are an explicit error type. *)

From Stdlib Require Import ZArith List String Ascii Bool Lia.
From Stdlib.Strings Require Import Byte.
From Stdlib Require Import Permutation Sorted OrdersEx.
Import ListNotations.
Open Scope Z_scope.

(** ** Python results and exceptions *)

Inductive exn : Type :=
| TypeError
| AttributeError
| IndexError
| ValueError
| KeyError
| StateError
| NotImplementedError
| StructError
| ModError.

Inductive result (A : Type) : Type :=
| Ok (a : A)
| Raise (e : exn).
Arguments Ok {A} a.
Arguments Raise {A} e.

Definition bind {A B : Type} (r : result A) (k : A -> result B) : result B :=
  match r with
  | Ok a => k a
  | Raise e => Raise e
  end.

Notation "x <- r ;; k" := (bind r (fun x => k))
  (at level 61, r at next level, right associativity).

Definition exn_eqb (a b : exn) : bool :=
  match a, b with
  | TypeError, TypeError | AttributeError, AttributeError
  | IndexError, IndexError | ValueError, ValueError | KeyError, KeyError
  | StateError, StateError | NotImplementedError, NotImplementedError
  | StructError, StructError | ModError, ModError => true
  | _, _ => false
  end.

(** [try: body except E: handler] *)
Definition try_except {A : Type} (body : result A) (E : exn)
    (handler : result A) : result A :=
  match body with
  | Ok a => Ok a
  | Raise e => if exn_eqb e E then handler else Raise e
  end.

(** [t[i]] on a tuple or list: negative indices count from the end, an
    index outside [-len, len) raises IndexError. *)
Definition getitem {A : Type} (t : list A) (i : Z) : result A :=
  let n := Z.of_nat (List.length t) in
  let j := if i <? 0 then i + n else i in
  if (j <? 0) || (n <=? j) then Raise IndexError
  else match nth_error t (Z.to_nat j) with
       | Some x => Ok x
       | None => Raise IndexError
       end.

(** ** File names

    [bolt.FName] is a [str] subclass with its own comparison operators; the
    comparisons are taken as an interface, of which only that a name equals
    itself is required. *)

Definition FName : Type := string.
Bind Scope string_scope with FName.

Inductive cmpop : Type := OLt | OLe | OGt | OGe.

Definition swap_op (op : cmpop) : cmpop :=
  match op with OLt => OGt | OLe => OGe | OGt => OLt | OGe => OLe end.

Class FNameOps : Type := {
  FName_eqb : FName -> FName -> bool;
  FName_cmp : cmpop -> FName -> FName -> bool;
  FName_eqb_refl : forall x, FName_eqb x x = true
}.

Definition Z_cmp (op : cmpop) (a b : Z) : bool :=
  match op with
  | OLt => a <? b
  | OLe => a <=? b
  | OGt => a >? b
  | OGe => a >=? b
  end.

(** ** Form ids *)

(** The classes a FormId instance can have: [FormId] itself, the [__FormId]
    class [from_tuple] builds for one owner, the two [_FormID] classes
    [from_masters] builds, [_Tes4Fid] and [_DummyFid]. *)
Inductive fid_class : Type :=
| CFormId
| CFromTuple (owner : FName)
| CMasters (augmented_masters : list FName)
| COverlay (augmented_masters : list FName)
| CTes4Fid
| CDummyFid.

Record FormId : Type := mkFormId {
  fid_type : fid_class;
  short_fid : Z
}.

(** The value of [long_fid]: the short integer for the base class, a
    [(owner, object index)] tuple otherwise. *)
Inductive long_val : Type :=
| LInt (z : Z)
| LTup (owner : FName) (object_index : Z).

Definition object_dex (f : FormId) : Z := Z.land (short_fid f) 0x00FFFFFF.

Definition mod_dex (f : FormId) : result Z :=
  match fid_type f with
  | CFromTuple _ => Raise StateError
  | _ => Ok (Z.shiftr (short_fid f) 24)
  end.

Definition is_null (f : FormId) : bool := object_dex f =? 0.

(** Modelled from the spec: [bush.game.master_fid], which is not part of the
    sources at hand. The zero identifier "always resolves to a fixed
    per-engine master record": [master_fid(object_id)] is the form id built
    from the tuple of the game's master file and the object id, so its long
    form is that tuple. *)
Definition master_fid_long (master_file : FName) (object_id : Z) : long_val :=
  LTup master_file object_id.

(** [long_fid], per class. [fast_cached_property] caches the value on the
    instance; instances are immutable, so the cached value is the computed
    one. *)
Definition long_fid (master_file : FName) (f : FormId) : result long_val :=
  match fid_type f with
  | CFormId => Ok (LInt (short_fid f))
  | CFromTuple owner => Ok (LTup owner (short_fid f))
  | CMasters masters =>
      try_except
        (d <- mod_dex f ;;
         m <- getitem masters d ;;
         Ok (LTup m (Z.land (short_fid f) 0xFFFFFF)))
        IndexError
        (m <- getitem masters (-1) ;;
         Ok (LTup m (Z.land (short_fid f) 0xFFFFFF)))
  | COverlay masters =>
      let overlay_threshold := Z.of_nat (List.length masters) - 1 in
      try_except
        (d <- mod_dex f ;;
         if d >=? overlay_threshold then
           m <- getitem masters 0 ;;
           Ok (LTup m (Z.land (short_fid f) 0xFFFFFF))
         else
           d' <- mod_dex f ;;
           m <- getitem masters d' ;;
           Ok (LTup m (Z.land (short_fid f) 0xFFFFFF)))
        IndexError
        (m <- getitem masters (-1) ;;
         Ok (LTup m (Z.land (short_fid f) 0xFFFFFF)))
  | CTes4Fid | CDummyFid => Ok (master_fid_long master_file 0)
  end.

(** [mod_fn]: [long_fid[0]]; subscripting an int is a TypeError, turned into
    a StateError. *)
Definition mod_fn (master_file : FName) (f : FormId) : result FName :=
  l <- long_fid master_file f ;;
  try_except
    (match l with
     | LTup owner _ => Ok owner
     | LInt _ => Raise TypeError
     end)
    TypeError
    (Raise StateError).

(** *** The class cache of [from_masters]

    [FormId._form_id_classes] is looked up under the pair
    [(augmented_masters, in_overlay_plugin)] and written under
    [augmented_masters] alone. A written key is a tuple of file names, a
    looked-up key is a pair of a tuple and a bool; a file name equals neither
    a tuple nor a bool, so keys of the two shapes never compare equal. *)
Inductive class_key : Type :=
| KMasters (augmented_masters : list FName)
| KMastersOverlay (augmented_masters : list FName) (in_overlay_plugin : bool).

Section ClassCache.
Context {fn : FNameOps}.

Fixpoint masters_eqb (a b : list FName) : bool :=
  match a, b with
  | [], [] => true
  | x :: a', y :: b' => FName_eqb x y && masters_eqb a' b'
  | _, _ => false
  end.

Definition class_key_eqb (k1 k2 : class_key) : bool :=
  match k1, k2 with
  | KMasters a, KMasters b => masters_eqb a b
  | KMastersOverlay a x, KMastersOverlay b y => masters_eqb a b && Bool.eqb x y
  | _, _ => false
  end.

Definition class_cache : Type := list (class_key * fid_class).

Fixpoint cache_get (cache : class_cache) (k : class_key) : option fid_class :=
  match cache with
  | [] => None
  | (k', c) :: rest => if class_key_eqb k' k then Some c else cache_get rest k
  end.

Fixpoint cache_set (cache : class_cache) (k : class_key) (c : fid_class)
    : class_cache :=
  match cache with
  | [] => [(k, c)]
  | (k', c') :: rest =>
      if class_key_eqb k' k then (k', c) :: rest
      else (k', c') :: cache_set rest k c
  end.

(** [FormId.from_masters]: returns the class and the updated cache. *)
Definition from_masters (cache : class_cache) (augmented_masters : list FName)
    (in_overlay_plugin : bool) : fid_class * class_cache :=
  match cache_get cache (KMastersOverlay augmented_masters in_overlay_plugin) with
  | Some form_id_type => (form_id_type, cache)
  | None =>
      let form_id_type :=
        if in_overlay_plugin then COverlay augmented_masters
        else CMasters augmented_masters in
      (form_id_type, cache_set cache (KMasters augmented_masters) form_id_type)
  end.

(** The caches the program can reach: the empty dict the class starts with,
    updated by calls of [from_masters] only. *)
Inductive reachable_cache : class_cache -> Prop :=
| reach_empty : reachable_cache []
| reach_call cache masters overlay :
    reachable_cache cache ->
    reachable_cache (snd (from_masters cache masters overlay)).

Definition written_key (k : class_key) : Prop :=
  match k with KMasters _ => True | KMastersOverlay _ _ => False end.

End ClassCache.

(** ** Python values and rich comparisons *)

(** The objects the modelled code compares and stores: [None], ints, [bytes],
    [(file name, int)] tuples, FormId instances and the [_NoneFid] sentinel. *)
Inductive pyval : Type :=
| PNone
| PInt (z : Z)
| PBytes (b : list byte)
| PTuple (owner : FName) (object_index : Z)
| PFid (f : FormId)
| PNoneFid.

(** [_Tes4Fid(0)], [_NoneFid()] and [_DummyFid(0)]. *)
Definition ZERO_FID : FormId := mkFormId CTes4Fid 0.
Definition NONE_FID : pyval := PNoneFid.
Definition DUMMY_FID : FormId := mkFormId CDummyFid 0.

(** [with suppress(E): return body] followed by [rest]. *)
Definition suppress {A : Type} (E : exn) (body rest : result A) : result A :=
  try_except body E rest.

Fixpoint bytes_compare (a b : list byte) : comparison :=
  match a, b with
  | [], [] => Eq
  | [], _ :: _ => Lt
  | _ :: _, [] => Gt
  | x :: a', y :: b' =>
      match N.compare (Byte.to_N x) (Byte.to_N y) with
      | Eq => bytes_compare a' b'
      | c => c
      end
  end.

Definition comparison_cmp (op : cmpop) (c : comparison) : bool :=
  match op, c with
  | OLt, Lt | OLe, Lt | OLe, Eq | OGt, Gt | OGe, Gt | OGe, Eq => true
  | _, _ => false
  end.

Definition bytes_eqb (a b : list byte) : bool :=
  match bytes_compare a b with Eq => true | _ => false end.

Section Compare.
Context {fn : FNameOps}.
Variable master_file : FName.

(** The module global [short_mapper]: [None], or the function the plugin
    output context installs. It is called on the operands and its results
    are compared as integers. *)
Variable short_mapper : option (pyval -> result Z).

(** Calling the global: calling [None] is a TypeError. *)
Definition call_short_mapper (v : pyval) : result Z :=
  match short_mapper with
  | None => Raise TypeError
  | Some mapper => mapper v
  end.

(** [==] and the order operators on the values [long_fid] can take. Tuples
    compare by their first differing item; an int and a tuple are unequal
    and unordered (TypeError). *)
Definition long_eqb (a b : long_val) : bool :=
  match a, b with
  | LInt x, LInt y => x =? y
  | LTup o1 i1, LTup o2 i2 => FName_eqb o1 o2 && (i1 =? i2)
  | _, _ => false
  end.

Definition long_cmp (op : cmpop) (a b : long_val) : result bool :=
  match a, b with
  | LInt x, LInt y => Ok (Z_cmp op x y)
  | LTup o1 i1, LTup o2 i2 =>
      Ok (if FName_eqb o1 o2 then Z_cmp op i1 i2 else FName_cmp op o1 o2)
  | _, _ => Raise TypeError
  end.

(** [other.long_fid]: only FormId instances have the attribute. *)
Definition getattr_long_fid (other : pyval) : result long_val :=
  match other with
  | PFid g => long_fid master_file g
  | _ => Raise AttributeError
  end.

(** [isinstance(self.long_fid, type(other))], giving [other] as a long
    value when it holds. *)
Definition isinstance_long (l : long_val) (other : pyval) : option long_val :=
  match l, other with
  | LInt _, PInt z => Some (LInt z)
  | LTup _ _, PTuple o i => Some (LTup o i)
  | _, _ => None
  end.

(** [FormId.__lt__], [__le__], [__gt__], [__ge__]: the four methods differ
    in the operator only. [None] is [NotImplemented]. *)
Definition FormId_richcmp (op : cmpop) (self : FormId) (other : pyval)
    : result (option bool) :=
  suppress TypeError
    (x <- call_short_mapper (PFid self) ;;
     y <- call_short_mapper other ;;
     Ok (Some (Z_cmp op x y)))
    (suppress AttributeError
       (l <- long_fid master_file self ;;
        l' <- getattr_long_fid other ;;
        b <- long_cmp op l l' ;;
        Ok (Some b))
       (l <- long_fid master_file self ;;
        match isinstance_long l other with
        | Some l' => b <- long_cmp op l l' ;; Ok (Some b)
        | None => Ok None
        end)).

Definition FormId__lt__ := FormId_richcmp OLt.
Definition FormId__le__ := FormId_richcmp OLe.
Definition FormId__gt__ := FormId_richcmp OGt.
Definition FormId__ge__ := FormId_richcmp OGe.

Definition FormId__eq__ (self : FormId) (other : pyval) : result (option bool) :=
  suppress AttributeError
    (l <- long_fid master_file self ;;
     l' <- getattr_long_fid other ;;
     Ok (Some (long_eqb l l')))
    (match other with
     | PNone => Ok (Some false)
     | _ =>
         l <- long_fid master_file self ;;
         match isinstance_long l other with
         | Some l' => Ok (Some (long_eqb l l'))
         | None => Ok None
         end
     end).

Definition FormId__ne__ (self : FormId) (other : pyval) : result (option bool) :=
  suppress AttributeError
    (l <- long_fid master_file self ;;
     l' <- getattr_long_fid other ;;
     Ok (Some (negb (long_eqb l l'))))
    (match other with
     | PNone => Ok (Some true)
     | _ =>
         l <- long_fid master_file self ;;
         match isinstance_long l other with
         | Some l' => Ok (Some (negb (long_eqb l l')))
         | None => Ok None
         end
     end).

(** [_NoneFid.__lt__], [__gt__] and [__eq__]. *)
Definition NoneFid__lt__ (other : pyval) : option bool :=
  match other with
  | PFid _ | PNoneFid => Some false
  | _ => None
  end.

Definition NoneFid__gt__ (other : pyval) : option bool :=
  match other with
  | PFid _ => Some true
  | PNoneFid => Some false
  | _ => None
  end.

Definition NoneFid__eq__ (other : pyval) : option bool :=
  match other with
  | PFid _ => Some false
  | PNoneFid => Some true
  | _ => None
  end.

(** The comparison methods of the built-in types: defined between two
    values of the same type, [NotImplemented] otherwise. *)
Definition builtin_richcmp (op : cmpop) (a b : pyval) : option bool :=
  match a, b with
  | PInt x, PInt y => Some (Z_cmp op x y)
  | PBytes x, PBytes y => Some (comparison_cmp op (bytes_compare x y))
  | PTuple o1 i1, PTuple o2 i2 =>
      Some (if FName_eqb o1 o2 then Z_cmp op i1 i2 else FName_cmp op o1 o2)
  | _, _ => None
  end.

Definition builtin_eq (a b : pyval) : option bool :=
  match a, b with
  | PNone, PNone => Some true
  | PInt x, PInt y => Some (x =? y)
  | PBytes x, PBytes y => Some (bytes_eqb x y)
  | PTuple o1 i1, PTuple o2 i2 => Some (FName_eqb o1 o2 && (i1 =? i2))
  | _, _ => None
  end.

(** [a is b], for the operands on which both [__eq__] methods give
    [NotImplemented]: such operands have different types, or are the
    singletons. *)
Definition py_is (a b : pyval) : bool :=
  match a, b with
  | PNone, PNone | PNoneFid, PNoneFid => true
  | _, _ => false
  end.

(** [c] is a proper subclass of [d]. Every class built by [from_tuple] or
    [from_masters] is a new subclass of [FormId]; [_DummyFid] derives from
    [_Tes4Fid], which derives from [FormId]. *)
Definition subclass_of (c d : fid_class) : bool :=
  match d, c with
  | CFormId, CFormId => false
  | CFormId, _ => true
  | CTes4Fid, CDummyFid => true
  | _, _ => false
  end.

(** The right operand's reflected method is tried first when its type is a
    proper subclass of the left operand's type. *)
Definition reflected_first (a b : pyval) : bool :=
  match a, b with
  | PFid x, PFid y => subclass_of (fid_type y) (fid_type x)
  | _, _ => false
  end.

(** A comparison operator: the two methods are tried in turn, each at most
    once, and [fallback] is the outcome when both give [NotImplemented]. *)
Definition binop (method reflected : pyval -> pyval -> result (option bool))
    (fallback : result bool) (a b : pyval) : result bool :=
  if reflected_first a b then
    r' <- reflected b a ;;
    match r' with
    | Some v => Ok v
    | None =>
        r <- method a b ;;
        match r with
        | Some v => Ok v
        | None => fallback
        end
    end
  else
    r <- method a b ;;
    match r with
    | Some v => Ok v
    | None =>
        r' <- reflected b a ;;
        match r' with
        | Some v => Ok v
        | None => fallback
        end
    end.

Definition dunder_lt (a b : pyval) : result (option bool) :=
  match a with
  | PFid f => FormId__lt__ f b
  | PNoneFid => Ok (NoneFid__lt__ b)
  | _ => Ok (builtin_richcmp OLt a b)
  end.

Definition dunder_gt (a b : pyval) : result (option bool) :=
  match a with
  | PFid f => FormId__gt__ f b
  | PNoneFid => Ok (NoneFid__gt__ b)
  | _ => Ok (builtin_richcmp OGt a b)
  end.

Definition op_lt : pyval -> pyval -> result bool :=
  binop dunder_lt dunder_gt (Raise TypeError).
Definition op_gt : pyval -> pyval -> result bool :=
  binop dunder_gt dunder_lt (Raise TypeError).

(** [_NoneFid.__le__] is [not self > other], [__ge__] is
    [not self < other]. *)
Definition NoneFid__le__ (other : pyval) : result (option bool) :=
  b <- op_gt PNoneFid other ;; Ok (Some (negb b)).

Definition NoneFid__ge__ (other : pyval) : result (option bool) :=
  b <- op_lt PNoneFid other ;; Ok (Some (negb b)).

Definition dunder_le (a b : pyval) : result (option bool) :=
  match a with
  | PFid f => FormId__le__ f b
  | PNoneFid => NoneFid__le__ b
  | _ => Ok (builtin_richcmp OLe a b)
  end.

Definition dunder_ge (a b : pyval) : result (option bool) :=
  match a with
  | PFid f => FormId__ge__ f b
  | PNoneFid => NoneFid__ge__ b
  | _ => Ok (builtin_richcmp OGe a b)
  end.

Definition op_le : pyval -> pyval -> result bool :=
  binop dunder_le dunder_ge (Raise TypeError).
Definition op_ge : pyval -> pyval -> result bool :=
  binop dunder_ge dunder_le (Raise TypeError).

Definition op_cmp (op : cmpop) : pyval -> pyval -> result bool :=
  match op with
  | OLt => op_lt
  | OLe => op_le
  | OGt => op_gt
  | OGe => op_ge
  end.

Definition dunder_eq (a b : pyval) : result (option bool) :=
  match a with
  | PFid f => FormId__eq__ f b
  | PNoneFid => Ok (NoneFid__eq__ b)
  | _ => Ok (builtin_eq a b)
  end.

(** [a == b]: when both methods give [NotImplemented] the operands are
    compared by identity. *)
Definition op_eq (a b : pyval) : result bool :=
  binop dunder_eq dunder_eq (Ok (py_is a b)) a b.

(** [_NoneFid.__ne__] is [not self == other]. *)
Definition NoneFid__ne__ (other : pyval) : result (option bool) :=
  b <- op_eq PNoneFid other ;; Ok (Some (negb b)).

Definition dunder_ne (a b : pyval) : result (option bool) :=
  match a with
  | PFid f => FormId__ne__ f b
  | PNoneFid => NoneFid__ne__ b
  | _ => Ok (option_map negb (builtin_eq a b))
  end.

Definition op_ne (a b : pyval) : result bool :=
  binop dunder_ne dunder_ne (Ok (negb (py_is a b))) a b.

(** The order of two long forms, as the operator [op] gives it on the
    [long_fid] of two FormIds. *)
Definition long_fid_cmp (op : cmpop) (a b : FormId) : result bool :=
  l <- long_fid master_file a ;;
  l' <- long_fid master_file b ;;
  long_cmp op l l'.

(** Modelled from the spec: the function the plugin output context installs
    as [short_mapper], which is not part of the sources at hand. "A
    dump-time context-global resolver maps long to short using the output
    file's eventual master list": the owner's position in that list becomes
    the high byte. What the resolver does on a value that is not a FormId is
    not said anywhere; it is the argument [on_other]. *)
Fixpoint master_index (masters : list FName) (owner : FName) : result Z :=
  match masters with
  | [] => Raise KeyError
  | m :: rest =>
      if FName_eqb m owner then Ok 0
      else i <- master_index rest owner ;; Ok (i + 1)
  end.

Definition master_list_mapper (masters : list FName)
    (on_other : pyval -> result Z) (v : pyval) : result Z :=
  match v with
  | PFid f =>
      owner <- mod_fn master_file f ;;
      i <- master_index masters owner ;;
      Ok (Z.lor (Z.shiftl i 24) (object_dex f))
  | _ => on_other v
  end.

(** [dump]: [FormId.dump] maps through [short_mapper], [_Tes4Fid.dump] is 0,
    [_DummyFid.dump] raises, [_NoneFid.dump] is 0xFFFFFFFF. Other objects
    have no [dump] attribute. *)
Definition dump (v : pyval) : result Z :=
  match v with
  | PFid f =>
      match fid_type f with
      | CTes4Fid => Ok 0
      | CDummyFid => Raise NotImplementedError
      | _ => call_short_mapper (PFid f)
      end
  | PNoneFid => Ok 0xFFFFFFFF
  | _ => Raise AttributeError
  end.

End Compare.

(** ** Code that mutates a record

    A method that assigns attributes of [record] and may raise is a function
    from the record to the record it leaves behind and its result:
    assignments made before an exception is raised stay. *)

Definition stateful (S A : Type) : Type := S -> S * result A.

Definition sret {S A : Type} (a : A) : stateful S A := fun s => (s, Ok a).

Definition sraise {S A : Type} (e : exn) : stateful S A :=
  fun s => (s, Raise e).

Definition sbind {S A B : Type} (m : stateful S A) (k : A -> stateful S B)
    : stateful S B :=
  fun s =>
    match m s with
    | (s', Ok a) => k a s'
    | (s', Raise e) => (s', Raise e)
    end.

Definition sread {S A : Type} (get : S -> A) : stateful S A :=
  fun s => (s, Ok (get s)).

Definition swrite {S : Type} (set : S -> S) : stateful S unit :=
  fun s => (set s, Ok tt).

Definition slift {S A : Type} (r : result A) : stateful S A := fun s => (s, r).

Notation "x <~ m ;; k" := (sbind m (fun x => k))
  (at level 61, m at next level, right associativity).
Notation "m ;;; k" := (sbind m (fun _ => k))
  (at level 61, right associativity).

(** ** Spell flags *)

(** Modelled from the spec: [bolt.Flags.__setitem__], which is not part of
    the sources at hand. Flags are "bitflag sets addressed by bit index" over
    a backing integer: setting index [index] to [value] writes that bit and
    no other. *)
Definition Flags__setitem__ (field : Z) (index : N) (value : bool) : Z :=
  let mask := Z.shiftl 1 (Z.of_N index) in
  Z.lor (Z.land field (Z.lnot mask)) (if value then mask else 0).

(** [_SpellFlags.__setitem__], on the backing integer of the flags. *)
Definition SpellFlags__setitem__ (field : Z) (index : N) (value : bool) : Z :=
  let setter := Flags__setitem__ in
  let field := setter field index value in
  if (index =? 1)%N then setter field 3%N value else field.

(** ** Race voices *)

Record race_record : Type := mkRace {
  fid : pyval;
  maleVoice : pyval;
  femaleVoice : pyval
}.

Definition set_maleVoice (v : pyval) (r : race_record) : race_record :=
  mkRace (fid r) v (femaleVoice r).

Definition set_femaleVoice (v : pyval) (r : race_record) : race_record :=
  mkRace (fid r) (maleVoice r) v.

Section RaceVoices.
Context {fn : FNameOps}.
Variable master_file : FName.

(** [MelStruct.pack_subrecord_data], from [basic_elements.py]: the bytes of
    the struct for the record's current attributes. *)
Variable MelStruct_pack_subrecord_data : race_record -> result (list byte).

Let py_eq := op_eq master_file.

(** [(a1, a2) != (b1, b2)]: the items are compared in order with [==] and
    the first unequal pair decides. *)
Definition tuple2_ne (a1 a2 b1 b2 : pyval) : result bool :=
  e1 <- py_eq a1 b1 ;;
  if negb e1 then Ok true
  else e2 <- py_eq a2 b2 ;; Ok (negb e2).

(** [MelRaceVoices.pack_subrecord_data]; [None] is returned when nothing is
    to be written. *)
Definition MelRaceVoices_pack_subrecord_data
    : stateful race_record (option (list byte)) :=
  male_is_self <~ (fun r => (r, py_eq (maleVoice r) (fid r))) ;;
  (if male_is_self : bool then swrite (set_maleVoice (PInt 0)) else sret tt) ;;;
  female_is_self <~ (fun r => (r, py_eq (femaleVoice r) (fid r))) ;;
  (if female_is_self : bool then swrite (set_femaleVoice (PInt 0)) else sret tt) ;;;
  voiced <~ (fun r =>
    (r, tuple2_ne (maleVoice r) (femaleVoice r) (PInt 0) (PInt 0))) ;;
  if voiced : bool then
    fun r => (r, b <- MelStruct_pack_subrecord_data r ;; Ok (Some b))
  else sret None.

End RaceVoices.

(** The normalisation as the specification words it: a voice that is the
    record's own fid is zeroed. *)
Definition zeroed (male_is_self female_is_self : bool) (r : race_record)
    : race_record :=
  mkRace (fid r)
    (if male_is_self then PInt 0 else maleVoice r)
    (if female_is_self then PInt 0 else femaleVoice r).

(** ** MODS subrecords *)

(** One entry of the MODS list: 3D name, form id, 3D index. *)
Definition mods_entry : Type := (string * pyval * Z)%type.

(** [lambda e: (e[0], e[2])] *)
Definition mods_key (e : mods_entry) : string * Z :=
  let '(s, _, index) := e in (s, index).

(** [<] on strings, by code point. *)
Definition str_ltb (a b : string) : bool :=
  match String_as_OT.compare a b with Lt => true | _ => false end.

(** [<] on [(str, int)] tuples: the first unequal item decides. *)
Definition mods_key_ltb (a b : string * Z) : bool :=
  if String.eqb (fst a) (fst b) then snd a <? snd b
  else str_ltb (fst a) (fst b).

Section ListSort.
Context {A K : Type}.
Variable key : A -> K.
Variable ltb : K -> K -> bool.

(** [list.sort(key=...)] is a stable sort that compares keys with [<]
    only: an element stays in front of the later elements it does not
    exceed. *)
Fixpoint sort_insert (x : A) (l : list A) : list A :=
  match l with
  | [] => [x]
  | y :: l' =>
      if ltb (key y) (key x) then y :: sort_insert x l'
      else x :: y :: l'
  end.

Fixpoint list_sort (l : list A) : list A :=
  match l with
  | [] => []
  | x :: l' => sort_insert x (list_sort l')
  end.

(** [x] may stand in front of [y]: the key of [y] is not below the key of
    [x]. *)
Definition key_le (x y : A) : Prop := ltb (key y) (key x) = false.

End ListSort.

Section MODS.
(** [structs_cache['I'].pack], [bolt.encode] and the packer of the dummy
    [MelFid], none of them in the sources at hand. *)
Variable packer : Z -> result (list byte).
Variable encode : string -> result (list byte).
Variable fid_packer : pyval -> result (list byte).

(** The chunks of the entries, in list order. *)
Fixpoint pack_mods_entries (l : list mods_entry) : result (list byte) :=
  match l with
  | [] => Ok []
  | (s, int_fid, index) :: l' =>
      a <- packer (Z.of_nat (String.length s)) ;;
      b <- encode s ;;
      c <- fid_packer int_fid ;;
      d <- packer index ;;
      rest <- pack_mods_entries l' ;;
      Ok (a ++ b ++ c ++ d ++ rest)
  end.

(** [MelMODS.pack_subrecord_data] on the value of the record's attribute:
    the list is sorted in place, so the attribute holds the sorted list
    afterwards. *)
Definition MelMODS_pack_subrecord_data
    : stateful (option (list mods_entry)) (option (list byte)) :=
  fun mods_data =>
    match mods_data with
    | Some l =>
        let l' := list_sort mods_key mods_key_ltb l in
        (Some l',
         n <- packer (Z.of_nat (List.length l')) ;;
         body <- pack_mods_entries l' ;;
         Ok (Some (n ++ body)))
    | None => (None, Ok None)
    end.

End MODS.

(** ** DEBR data *)

Record debr_record : Type := mkDebr {
  percentage : pyval;
  modPath : pyval;
  flags : pyval
}.

Definition set_percentage (v : pyval) (r : debr_record) : debr_record :=
  mkDebr v (modPath r) (flags r).
Definition set_modPath (v : pyval) (r : debr_record) : debr_record :=
  mkDebr (percentage r) v (flags r).
Definition set_flags (v : pyval) (r : debr_record) : debr_record :=
  mkDebr (percentage r) (modPath r) v.

Definition null1 : list byte := [x00].

(** [b[start:stop]] with the bounds clamped the way Python does. *)
Definition slice_bound (n i : Z) : Z :=
  if i <? 0 then Z.max (i + n) 0 else Z.min i n.

Definition slice {A : Type} (l : list A) (start stop : Z) : list A :=
  let n := Z.of_nat (List.length l) in
  let a := slice_bound n start in
  let b := slice_bound n stop in
  firstn (Z.to_nat (b - a)) (skipn (Z.to_nat a) l).

(** Indexing a [bytes] object gives an int. *)
Definition bytes_getitem (b : list byte) (i : Z) : result pyval :=
  x <- getitem b i ;; Ok (PInt (Z.of_N (Byte.to_N x))).

Section DebrData.
Context {fn : FNameOps}.
Variable master_file : FName.

(** [bolt.unpack_byte(ins, b)] and [bolt.struct_unpack('B', x)], not in the
    sources at hand: each gives a sequence or raises. *)
Variable unpack_byte : list byte -> result (list pyval).
Variable struct_unpack_B : pyval -> result (list pyval).

(** [MelDebrData.load_mel], from the bytes [ins.read(size_)] returned. *)
Definition MelDebrData_load_mel (byte_data : list byte)
    : stateful debr_record unit :=
  p <~ slift (u <- unpack_byte (slice byte_data 0 1) ;; getitem u 0) ;;
  swrite (set_percentage p) ;;;
  swrite (set_modPath (PBytes (slice byte_data 1 (-2)))) ;;;
  x <~ slift (bytes_getitem byte_data (-2)) ;;
  differs <~ slift (op_ne master_file x (PBytes null1)) ;;
  (if differs : bool then sraise ModError else sret tt) ;;;
  last <~ slift (bytes_getitem byte_data (-1)) ;;
  f <~ slift (u <- struct_unpack_B last ;; getitem u 0) ;;
  swrite (set_flags f).

End DebrData.

(** ** An instance of the file name comparisons

    Names compared after lower-casing, the way [bolt.FName] ignores case. *)

Definition lower_ascii (c : ascii) : ascii :=
  let n := nat_of_ascii c in
  if ((65 <=? n) && (n <=? 90))%nat then ascii_of_nat (n + 32) else c.

Fixpoint lower (s : string) : string :=
  match s with
  | EmptyString => EmptyString
  | String c s' => String (lower_ascii c) (lower s')
  end.

Definition lower_FNameOps : FNameOps := {|
  FName_eqb a b := String.eqb (lower a) (lower b);
  FName_cmp op a b :=
    comparison_cmp op (String_as_OT.compare (lower a) (lower b));
  FName_eqb_refl x := String.eqb_refl (lower x)
|}.

(** ** Instances of the packers, for examples

    Python's struct format [I] on a little-endian machine, UTF-8 free
    encoding of the bytes of a string, and a form id packed as the value
    its [dump] gives. *)

Definition byte_of_Z (z : Z) : byte :=
  match Byte.of_N (Z.to_N (z mod 256)) with
  | Some b => b
  | None => x00
  end.

Definition struct_pack_I (z : Z) : result (list byte) :=
  if (0 <=? z) && (z <? 2 ^ 32) then
    Ok [byte_of_Z z; byte_of_Z (Z.shiftr z 8); byte_of_Z (Z.shiftr z 16);
        byte_of_Z (Z.shiftr z 24)]
  else Raise StructError.

Definition encode_bytes (s : string) : result (list byte) :=
  Ok (list_byte_of_string s).

Definition pack_fid (short_mapper : option (pyval -> result Z)) (v : pyval)
    : result (list byte) :=
  z <- dump short_mapper v ;; struct_pack_I z.

(** ** The other form id factories *)

(** [FormId.from_object_id], called on the class [cls]. *)
Definition from_object_id (cls : fid_class) (modIndex objectIndex : Z)
    : FormId :=
  mkFormId cls (Z.lor objectIndex (Z.shiftl modIndex 24)).

Section TupleCache.
Context {fn : FNameOps}.

(** [FormId.__master_formid_type]: a dict from file names to classes, in
    insertion order; a stored key is found when it equals the looked-up
    name. *)
Definition tuple_cache : Type := list (FName * fid_class).

Fixpoint tuple_cache_get (cache : tuple_cache) (owner : FName)
    : option fid_class :=
  match cache with
  | [] => None
  | (k, c) :: rest =>
      if FName_eqb k owner then Some c else tuple_cache_get rest owner
  end.

(** [FormId.from_tuple], called on [FormId]: the class is built once per
    owner and closes over the tuple of the call that built it. *)
Definition from_tuple (cache : tuple_cache) (fid_tuple : FName * Z)
    : FormId * tuple_cache :=
  match tuple_cache_get cache (fst fid_tuple) with
  | Some c => (mkFormId c (snd fid_tuple), cache)
  | None =>
      let c := CFromTuple (fst fid_tuple) in
      (mkFormId c (snd fid_tuple), cache ++ [(fst fid_tuple, c)])
  end.

Inductive reachable_tuple_cache : tuple_cache -> Prop :=
| reach_tuple_empty : reachable_tuple_cache []
| reach_tuple_call cache fid_tuple :
    reachable_tuple_cache cache ->
    reachable_tuple_cache (snd (from_tuple cache fid_tuple)).

End TupleCache.

(** ** Magic effect flags *)

(** [AMgefFlagsTes4.fog_projectile_type], getter and setter, on the backing
    integer [_field]. *)
Definition fog_mask : Z := 0x06000000.

Definition fog_projectile_type (field : Z) : bool :=
  Z.land field fog_mask =? fog_mask.

Definition set_fog_projectile_type (field : Z) (new_fpt : bool) : Z :=
  let new_bits := if new_fpt then fog_mask else 0 in
  Z.lor (Z.land field (Z.lnot fog_mask)) new_bits.

(** ** Remapping the form ids of a MODS list *)

Section MODSMapFids.
Variable function : pyval -> result pyval.

(** The list comprehension of [MelMODS.mapFids]. *)
Fixpoint map_mods_fids (l : list mods_entry) : result (list mods_entry) :=
  match l with
  | [] => Ok []
  | (s, int_fid, index) :: l' =>
      f <- function int_fid ;;
      rest <- map_mods_fids l' ;;
      Ok ((s, f, index) :: rest)
  end.

(** [MelMODS.mapFids] on the value of the record's attribute. *)
Definition MelMODS_mapFids (save_fids : bool)
    : stateful (option (list mods_entry)) unit :=
  fun mods_data =>
    match mods_data with
    | Some l =>
        match map_mods_fids l with
        | Ok l' => (if save_fids then Some l' else Some l, Ok tt)
        | Raise e => (Some l, Raise e)
        end
    | None => (None, Ok tt)
    end.

End MODSMapFids.

(** ** Writing DEBR data *)

(** [MelDebrData.pack_subrecord_data]: the items of the list are evaluated
    in order, then joined; joining anything but bytes is a TypeError.
    [struct_pack_B] is [bolt.struct_pack('B', x)]. *)
Definition MelDebrData_pack_subrecord_data
    (struct_pack_B : pyval -> result (list byte)) (r : debr_record)
    : result (list byte) :=
  a <- struct_pack_B (percentage r) ;;
  f <- struct_pack_B (flags r) ;;
  m <- match modPath r with
       | PBytes b => Ok b
       | _ => Raise TypeError
       end ;;
  Ok (a ++ m ++ null1 ++ f).

(** ** Attribute name helpers *)

Definition color_attrs (color_attr_pfx : string) (rename_alpha : bool)
    : list string :=
  map (fun c => (color_attr_pfx ++ "_" ++ c)%string)
    ["red"; "green"; "blue";
     if rename_alpha then "unused" else "alpha"]%string.

Definition color3_attrs (color_attr_pfx : string) : list string :=
  map (fun c => (color_attr_pfx ++ "_" ++ c)%string)
    ["red"; "green"; "blue"]%string.

Definition _gen_3d_attrs (attr_prefix : string) : list string :=
  map (fun d => (attr_prefix ++ "_" ++ d)%string) ["x"; "y"; "z"]%string.

Definition position_attrs (attr_prefix : string) : list string :=
  _gen_3d_attrs (attr_prefix ++ "_pos")%string.

Definition rotation_attrs (attr_prefix : string) : list string :=
  _gen_3d_attrs (attr_prefix ++ "_rot")%string.

Definition velocity_attrs (attr_prefix : string) : list string :=
  _gen_3d_attrs (attr_prefix ++ "_vel")%string.

Definition ambient_lighting_attrs (attr_prefix : string) : list string :=
  let color_types :=
    map (fun t => ("directional_" ++ t)%string)
      ["x_plus"; "x_minus"; "y_plus"; "y_minus"; "z_plus"; "z_minus"]%string
    ++ ["specular"%string] in
  let color_iters := flat_map (fun d => color_attrs d false) color_types in
  let ambient_lighting :=
    map (fun x => (attr_prefix ++ "_ac_" ++ x)%string) color_iters in
  ambient_lighting ++ [(attr_prefix ++ "_ac_scale")%string].

(** ** Strings

    A string is its sequence of code points, each below 256. *)

(** [str.lower] on one code point: A-Z and the upper-case letters of
    Latin-1 move up by 32. *)
Definition str_lower_char (c : ascii) : ascii :=
  let n := nat_of_ascii c in
  if ((65 <=? n) && (n <=? 90))%nat
     || ((192 <=? n) && (n <=? 222) && negb (n =? 215))%nat
  then ascii_of_nat (n + 32) else c.

Fixpoint str_lower (s : string) : string :=
  match s with
  | EmptyString => EmptyString
  | String c s' => String (str_lower_char c) (str_lower s')
  end.

(** [str.isspace] on one code point. *)
Definition is_space (c : ascii) : bool :=
  let n := nat_of_ascii c in
  ((9 <=? n) && (n <=? 13) || (28 <=? n) && (n <=? 32)
   || (n =? 133) || (n =? 160))%nat.

Fixpoint lstrip (s : string) : string :=
  match s with
  | EmptyString => EmptyString
  | String c s' => if is_space c then lstrip s' else s
  end.

Fixpoint rstrip (s : string) : string :=
  match s with
  | EmptyString => EmptyString
  | String c s' =>
      match rstrip s' with
      | EmptyString => if is_space c then EmptyString else String c EmptyString
      | r => String c r
      end
  end.

(** [s.strip()] *)
Definition strip (s : string) : string := rstrip (lstrip s).

(** [s.split(',')]: never empty, the pieces hold no comma. *)
Fixpoint split_comma (s : string) : list string :=
  match s with
  | EmptyString => [EmptyString]
  | String c s' =>
      match split_comma s' with
      | piece :: rest =>
          if Ascii.eqb c "," then EmptyString :: piece :: rest
          else String c piece :: rest
      | [] => [String c EmptyString]
      end
  end.

(** ** Bash tags in CSV files *)

(** The Tags field [Mods_ExportBashTags._write_rows] writes for a plugin:
    [", ".join(sorted(curr_tags))]. *)
Definition export_tags_field (curr_tags : list string) : string :=
  String.concat ", " (list_sort (fun t => t) str_ltb curr_tags).

(** The tags [Mods_ImportBashTags._parse_line] reads from a Tags field:
    [{t.strip() for t in curr_tags.split(',')}], as the list the set is
    built from. *)
Definition import_tags_field (curr_tags : string) : list string :=
  map strip (split_comma curr_tags).

(** ** Active plugins lists *)

Module Mods_LoadListData.

(** [loadListDict]: a dict from list names to plugin lists, in insertion
    order. *)
Definition loadListDict : Type := list (string * list FName).

Fixpoint getitem (d : loadListDict) (k : string) : result (list FName) :=
  match d with
  | [] => Raise KeyError
  | (k', v) :: rest => if String.eqb k' k then Ok v else getitem rest k
  end.

(** [d[k] = v]: an existing key keeps its place, a new one goes last. *)
Fixpoint setitem (d : loadListDict) (k : string) (v : list FName)
    : loadListDict :=
  match d with
  | [] => [(k, v)]
  | (k', v') :: rest =>
      if String.eqb k' k then (k', v) :: rest
      else (k', v') :: setitem rest k v
  end.

(** [del d[k]] *)
Fixpoint delitem (d : loadListDict) (k : string) : result loadListDict :=
  match d with
  | [] => Raise KeyError
  | (k', v) :: rest =>
      if String.eqb k' k then Ok rest
      else rest' <- delitem rest k ;; Ok ((k', v) :: rest')
  end.

(** [getItemList]: the keys sorted by their lower-cased form. *)
Definition getItemList (d : loadListDict) : list string :=
  list_sort str_lower str_ltb (map fst d).

(** [rename]: [None] is the [False] returned after the error dialog. *)
Definition rename (oldName newName : string)
    : stateful loadListDict (option string) :=
  fun d =>
    if ((String.length newName =? 0) || (64 <? String.length newName))%nat
    then (d, Ok None)
    else
      match getitem d oldName with
      | Raise e => (d, Raise e)
      | Ok v =>
          let d1 := setitem d newName v in
          match delitem d1 oldName with
          | Raise e => (d1, Raise e)
          | Ok d2 => (d2, Ok (Some newName))
          end
      end.

(** [remove] *)
Definition remove (item : string) : stateful loadListDict bool :=
  fun d =>
    match delitem d item with
    | Raise e => (d, Raise e)
    | Ok d' => (d', Ok true)
    end.

End Mods_LoadListData.

(** ** Helpers for stating properties of MODS lists *)

(** An entry with its form id replaced. *)
Definition remap_entry (g : pyval -> pyval) (e : mods_entry) : mods_entry :=
  let '(s, int_fid, index) := e in (s, g int_fid, index).

(** [==] on [(str, int)] keys. *)
Definition mods_key_eqb (a b : string * Z) : bool :=
  String.eqb (fst a) (fst b) && (snd a =? snd b).

(** The struct format [B] written from an int. *)
Definition struct_pack_B_int (v : pyval) : result (list byte) :=
  match v with
  | PInt z =>
      if (0 <=? z) && (z <? 256) then Ok [byte_of_Z z] else Raise StructError
  | _ => Raise StructError
  end.

(** A string without a comma. *)
Fixpoint no_comma (s : string) : bool :=
  match s with
  | EmptyString => true
  | String c s' => negb (Ascii.eqb c ",") && no_comma s'
  end.

(** ** Conditions on GetVATSValue (FO3 and later)

    [bolt.struct_pack] and [bolt.struct_unpack] hand a format and values to
    Python's [struct] module; the three formats the table below uses are
    modelled on a little-endian machine. *)

Inductive struct_fmt : Type := Fmt_I | Fmt_i | Fmt_4s.

Definition byte_val (b : byte) : Z := Z.of_N (Byte.to_N b).

Definition le_uint32 (b0 b1 b2 b3 : byte) : Z :=
  byte_val b0 + 256 * (byte_val b1 + 256 * (byte_val b2 + 256 * byte_val b3)).

(** [struct_unpack(fmt, data)]: the data must be bytes of the size of the
    format. *)
Definition struct_unpack (fmt : struct_fmt) (data : pyval)
    : result (list pyval) :=
  match data with
  | PBytes [b0; b1; b2; b3] =>
      let u := le_uint32 b0 b1 b2 b3 in
      match fmt with
      | Fmt_I => Ok [PInt u]
      | Fmt_i => Ok [PInt (if u <? 2 ^ 31 then u else u - 2 ^ 32)]
      | Fmt_4s => Ok [PBytes [b0; b1; b2; b3]]
      end
  | PBytes _ => Raise StructError
  | _ => Raise TypeError
  end.

(** [struct_pack(fmt, value)]: an int in the range of the format, or bytes
    padded with nulls or cut to four for [4s]. *)
Definition struct_pack (fmt : struct_fmt) (value : pyval)
    : result (list byte) :=
  match fmt, value with
  | Fmt_I, PInt z => struct_pack_I z
  | Fmt_i, PInt z =>
      if (- 2 ^ 31 <=? z) && (z <? 2 ^ 31) then struct_pack_I (z mod 2 ^ 32)
      else Raise StructError
  | Fmt_4s, PBytes b => Ok (firstn 4 (b ++ [x00; x00; x00; x00]))
  | _, _ => Raise StructError
  end.

(** [MelCtdaFo3._vats_param2_fmt], a defaultdict with default ['4s'], and
    [MelCtdaFo3._vats_param2_fid]. *)
Definition _vats_param2_fmt_items : list (Z * struct_fmt) :=
  [(0, Fmt_I); (1, Fmt_I); (2, Fmt_I); (3, Fmt_I); (5, Fmt_i); (6, Fmt_I);
   (9, Fmt_I); (10, Fmt_I); (15, Fmt_I); (18, Fmt_I); (19, Fmt_I);
   (20, Fmt_I)].

Fixpoint fmt_lookup (items : list (Z * struct_fmt)) (k : Z) : struct_fmt :=
  match items with
  | [] => Fmt_4s
  | (k', f) :: rest => if k' =? k then f else fmt_lookup rest k
  end.

Definition _vats_param2_fmt (param1 : pyval) : struct_fmt :=
  match param1 with
  | PInt z => fmt_lookup _vats_param2_fmt_items z
  | _ => Fmt_4s
  end.

Definition _vats_param2_fid : list Z := [0; 1; 2; 3; 9; 10].

Definition in_vats_param2_fid (param1 : pyval) : bool :=
  match param1 with
  | PInt z => existsb (Z.eqb z) _vats_param2_fid
  | _ => false
  end.

Record ctda_record : Type := mkCtda {
  ifunc : Z;
  param1 : pyval;
  param2 : pyval;
  runOn : Z;
  reference : pyval
}.

Definition set_param2 (v : pyval) (r : ctda_record) : ctda_record :=
  mkCtda (ifunc r) (param1 r) v (runOn r) (reference r).

Definition set_reference (v : pyval) (r : ctda_record) : ctda_record :=
  mkCtda (ifunc r) (param1 r) (param2 r) (runOn r) v.

Section CtdaFo3.
(** [bush.game.getvatsvalue_index] and the function indices the game
    ignores, both fixed when the element is built. *)
Variable _getvatsvalue_ifunc : Z.
Variable _ignore_ifuncs : list Z.

(** The methods of [MelCtda] the subclass extends. *)
Variable MelCtda_load_mel : stateful ctda_record unit.
Variable MelCtda_dumpData : stateful ctda_record (list byte).
Variable MelCtda_mapFids :
  (pyval -> result pyval) -> bool -> stateful ctda_record unit.

(** [MelCtdaFo3.load_mel] *)
Definition MelCtdaFo3_load_mel : stateful ctda_record unit :=
  MelCtda_load_mel ;;;
  fun r =>
    if ifunc r =? _getvatsvalue_ifunc then
      match (u <- struct_unpack (_vats_param2_fmt (param1 r)) (param2 r) ;;
             getitem u 0) with
      | Ok v => (set_param2 v r, Ok tt)
      | Raise e => (r, Raise e)
      end
    else (r, Ok tt).

(** [MelCtdaFo3.dumpData]: the bytes the base class writes. *)
Definition MelCtdaFo3_dumpData : stateful ctda_record (list byte) :=
  (fun r =>
     if ifunc r =? _getvatsvalue_ifunc then
       match struct_pack (_vats_param2_fmt (param1 r)) (param2 r) with
       | Ok b => (set_param2 (PBytes b) r, Ok tt)
       | Raise e => (r, Raise e)
       end
     else (r, Ok tt)) ;;;
  MelCtda_dumpData.

(** [MelCtdaFo3.mapFids] *)
Definition MelCtdaFo3_mapFids (function : pyval -> result pyval)
    (save_fids : bool) : stateful ctda_record unit :=
  MelCtda_mapFids function save_fids ;;;
  (fun r =>
     if (runOn r =? 2) && negb (existsb (Z.eqb (ifunc r)) _ignore_ifuncs) then
       match function (reference r) with
       | Ok new_reference =>
           (if save_fids then set_reference new_reference r else r, Ok tt)
       | Raise e => (r, Raise e)
       end
     else (r, Ok tt)) ;;;
  fun r =>
    if (ifunc r =? _getvatsvalue_ifunc) && in_vats_param2_fid (param1 r) then
      match function (param2 r) with
      | Ok new_param2 =>
          (if save_fids then set_param2 new_param2 r else r, Ok tt)
      | Raise e => (r, Raise e)
      end
    else (r, Ok tt).

End CtdaFo3.

(** ** Basic facts *)

Lemma getitem_nonneg {A : Type} (t : list A) (i : Z) :
  0 <= i < Z.of_nat (List.length t) ->
  exists x, nth_error t (Z.to_nat i) = Some x /\ getitem t i = Ok x.
Proof.
  intros Hi. unfold getitem.
  destruct (Z.ltb_spec i 0) as [Hneg|_]; [lia|].
  destruct (Z.ltb_spec i 0) as [Hneg|_]; [lia|].
  destruct (Z.leb_spec (Z.of_nat (List.length t)) i) as [Hbig|_]; [lia|].
  cbn [orb].
  destruct (nth_error t (Z.to_nat i)) as [x|] eqn:E.
  - exists x. split; reflexivity.
  - apply nth_error_None in E. lia.
Qed.

Section ClassCacheFacts.
Context {fn : FNameOps}.

Lemma cache_set_written cache k c :
  written_key k ->
  Forall (fun kc => written_key (fst kc)) cache ->
  Forall (fun kc => written_key (fst kc)) (cache_set cache k c).
Proof.
  intros Hk Hc. induction Hc as [|[k' c'] rest Hk' Hrest IH]; cbn.
  - constructor; [exact Hk|constructor].
  - destruct (class_key_eqb k' k); constructor; cbn in *; assumption.
Qed.

Lemma cache_get_miss cache masters overlay :
  Forall (fun kc => written_key (fst kc)) cache ->
  cache_get cache (KMastersOverlay masters overlay) = None.
Proof.
  induction 1 as [|[k c] rest Hk _ IH]; cbn; [reflexivity|].
  destruct k; cbn in *; [exact IH|contradiction].
Qed.

Lemma reachable_written cache :
  reachable_cache cache -> Forall (fun kc => written_key (fst kc)) cache.
Proof.
  induction 1 as [|cache masters overlay _ IH]; [constructor|].
  unfold from_masters. rewrite (cache_get_miss _ _ _ IH). cbn [snd].
  apply cache_set_written; [exact I|exact IH].
Qed.

Lemma from_masters_class cache masters overlay :
  reachable_cache cache ->
  fst (from_masters cache masters overlay) =
  if overlay then COverlay masters else CMasters masters.
Proof.
  intros H. unfold from_masters.
  rewrite (cache_get_miss _ _ _ (reachable_written _ H)). reflexivity.
Qed.

End ClassCacheFacts.

(** ** Resolving short form ids *)

Lemma mod_dex_masters masters s :
  mod_dex (mkFormId (CMasters masters) s) = Ok (Z.shiftr s 24).
Proof. reflexivity. Qed.

(** C1: the class [from_masters] returns for a masters tuple outside overlay
    mode resolves a short id [s] whose master index [s >> 24] is below the
    number of masters to the long form [(masters[s >> 24], s & 0xFFFFFF)]. *)
Theorem from_masters_long_fid {fn : FNameOps} (master_file : FName)
    (cache : class_cache) (masters : list FName) (s : Z) :
  reachable_cache cache ->
  0 <= s ->
  Z.shiftr s 24 < Z.of_nat (List.length masters) ->
  exists owner,
    nth_error masters (Z.to_nat (Z.shiftr s 24)) = Some owner /\
    long_fid master_file (mkFormId (fst (from_masters cache masters false)) s)
    = Ok (LTup owner (Z.land s 0xFFFFFF)).
Proof.
  intros Hcache Hs Hlt.
  assert (Hd : 0 <= Z.shiftr s 24 < Z.of_nat (List.length masters)).
  { split; [apply Z.shiftr_nonneg; exact Hs|exact Hlt]. }
  destruct (getitem_nonneg masters _ Hd) as (owner & Hnth & Hget).
  exists owner. split; [exact Hnth|].
  rewrite (from_masters_class _ _ _ Hcache).
  unfold long_fid. cbn [fid_type short_fid].
  rewrite mod_dex_masters. cbn [bind]. rewrite Hget. reflexivity.
Qed.

(** The short id 0x01000003 under the masters Foo.esm, Bar.esp. *)
Lemma from_masters_long_fid_example :
  long_fid "Oblivion.esm"
    (mkFormId
       (fst (@from_masters lower_FNameOps [] ["Foo.esm"; "Bar.esp"]%string false))
       0x01000003)
  = Ok (LTup "Bar.esp" 3).
Proof.
  destruct (@from_masters_long_fid lower_FNameOps "Oblivion.esm"%string []
              ["Foo.esm"; "Bar.esp"]%string 0x01000003)
    as (owner & Hnth & Hlong).
  - constructor.
  - lia.
  - cbn. lia.
  - cbn in Hnth. injection Hnth as <-. exact Hlong.
Defined.

(** C2, as the code has it: a plain [FormId] does not map, its long form is
    the short id itself and nothing is raised; asking it for the owning file
    ([mod_fn]) raises a StateError. *)
Theorem plain_FormId_long_fid (master_file : FName) (s : Z) :
  long_fid master_file (mkFormId CFormId s) = Ok (LInt s) /\
  mod_fn master_file (mkFormId CFormId s) = Raise StateError.
Proof. split; reflexivity. Qed.

(** C2 fails as stated: the long form of the plain [FormId(5)] is 5, not a
    StateError. *)
Lemma long_fid_of_plain_FormId_is_short :
  long_fid "Oblivion.esm" (mkFormId CFormId 5) = Ok (LInt 5) /\
  long_fid "Oblivion.esm" (mkFormId CFormId 5) <> Raise StateError.
Proof. split; [reflexivity|discriminate]. Qed.

(** ** Null form ids *)

Lemma land_low24_zero (z : Z) :
  Z.land z 0xFFFFFF = 0 <->
  forall i, 0 <= i < 24 -> Z.testbit z i = false.
Proof.
  change 0xFFFFFF with (Z.ones 24). split.
  - intros H i Hi.
    assert (Hb : Z.testbit (Z.land z (Z.ones 24)) i = false)
      by (rewrite H; apply Z.bits_0).
    rewrite Z.land_spec, Z.ones_spec_low, andb_true_r in Hb by lia.
    exact Hb.
  - intros H. apply Z.bits_inj'. intros i Hi.
    rewrite Z.land_spec, Z.bits_0.
    destruct (Z.ltb_spec i 24) as [Hlt|Hge].
    + rewrite H by lia. reflexivity.
    + rewrite Z.ones_spec_high by lia. apply andb_false_r.
Qed.

(** C9: [is_null] is true exactly when the low 24 bits of the short form
    are zero; so 0x01000000 is null under any class, whatever its master
    index byte. *)
Theorem is_null_low24 :
  (forall f : FormId,
     is_null f = true <->
     forall i, 0 <= i < 24 -> Z.testbit (short_fid f) i = false) /\
  (forall c : fid_class, is_null (mkFormId c 0x01000000) = true) /\
  (forall c : fid_class, is_null (mkFormId c 0) = true).
Proof.
  split; [|split; reflexivity].
  intros f. unfold is_null, object_dex.
  rewrite Z.eqb_eq. apply land_low24_zero.
Qed.

(** ** Dumping sentinels *)

(** C5, as the code has it: dumping a [_DummyFid] raises
    NotImplementedError, while dumping the NONE sentinel gives 0xFFFFFFFF. *)
Theorem dump_sentinels (short_mapper : option (pyval -> result Z)) (s : Z) :
  dump short_mapper (PFid (mkFormId CDummyFid s)) = Raise NotImplementedError /\
  dump short_mapper (PFid DUMMY_FID) = Raise NotImplementedError /\
  dump short_mapper NONE_FID = Ok 0xFFFFFFFF.
Proof. repeat split. Qed.

(** C5 fails as stated: dumping the NONE sentinel produces a value and does
    not raise. *)
Lemma dump_NONE_FID_no_error :
  dump None NONE_FID = Ok 4294967295 /\
  forall e, dump None NONE_FID <> Raise e.
Proof. split; [reflexivity|discriminate]. Qed.

(** ** Spell flags *)

Lemma Flags__setitem___testbit (field : Z) (index j : N) (value : bool) :
  Z.testbit (Flags__setitem__ field index value) (Z.of_N j) =
  if (j =? index)%N then value else Z.testbit field (Z.of_N j).
Proof.
  unfold Flags__setitem__.
  rewrite Z.shiftl_1_l, Z.lor_spec, Z.land_spec.
  rewrite Z.lnot_spec by lia.
  assert (Hbit : Z.testbit (2 ^ Z.of_N index) (Z.of_N j) = (j =? index)%N).
  { rewrite Z.pow2_bits_eqb by lia.
    destruct (N.eqb_spec j index) as [->|Hne].
    - apply Z.eqb_refl.
    - apply Z.eqb_neq. lia. }
  rewrite Hbit.
  destruct (j =? index)%N eqn:E.
  - destruct value.
    + rewrite Hbit. apply orb_true_r.
    + rewrite Z.bits_0. cbn [negb]. rewrite andb_false_r. reflexivity.
  - cbn [negb]. rewrite andb_true_r.
    destruct value; [rewrite Hbit|rewrite Z.bits_0]; apply orb_false_r.
Qed.

(** C6: setting index 1 of spell flags to [v] also sets bit 3 to [v];
    setting any other index changes that bit only. *)
Theorem SpellFlags__setitem___testbit (field : Z) (index j : N) (v : bool) :
  Z.testbit (SpellFlags__setitem__ field index v) (Z.of_N j) =
  if ((j =? index) || ((index =? 1) && (j =? 3)))%N then v
  else Z.testbit field (Z.of_N j).
Proof.
  unfold SpellFlags__setitem__.
  destruct (index =? 1)%N eqn:E1.
  - rewrite !Flags__setitem___testbit.
    destruct (j =? 3)%N, (j =? index)%N; reflexivity.
  - rewrite Flags__setitem___testbit, andb_false_l, orb_false_r. reflexivity.
Qed.

(** ** Ordering of form ids *)

Lemma getitem_raises {A : Type} (t : list A) (i : Z) (e : exn) :
  getitem t i = Raise e -> e = IndexError.
Proof.
  unfold getitem.
  destruct (_ || _); [congruence|].
  destruct (nth_error _ _); congruence.
Qed.

Lemma long_fid_raises (master_file : FName) (f : FormId) (e : exn) :
  long_fid master_file f = Raise e -> e = IndexError.
Proof.
  destruct f as [c s]. unfold long_fid. cbn [fid_type short_fid].
  destruct c as [|owner|masters|masters| |]; try discriminate.
  - unfold mod_dex. cbn [fid_type short_fid bind].
    destruct (getitem masters (Z.shiftr s 24)) as [m|e1] eqn:E1; cbn; [discriminate|].
    rewrite (getitem_raises _ _ _ E1). cbn.
    destruct (getitem masters (-1)) as [m|e2] eqn:E2; cbn; [discriminate|].
    intros [= <-]. exact (getitem_raises _ _ _ E2).
  - unfold mod_dex. cbn [fid_type short_fid bind].
    destruct (Z.shiftr s 24 >=? Z.of_nat (List.length masters) - 1).
    + destruct (getitem masters 0) as [m|e1] eqn:E1; cbn; [discriminate|].
      rewrite (getitem_raises _ _ _ E1). cbn.
      destruct (getitem masters (-1)) as [m|e2] eqn:E2; cbn; [discriminate|].
      intros [= <-]. exact (getitem_raises _ _ _ E2).
    + destruct (getitem masters (Z.shiftr s 24)) as [m|e1] eqn:E1; cbn; [discriminate|].
      rewrite (getitem_raises _ _ _ E1). cbn.
      destruct (getitem masters (-1)) as [m|e2] eqn:E2; cbn; [discriminate|].
      intros [= <-]. exact (getitem_raises _ _ _ E2).
Qed.

Lemma long_fid_subclass_tuple (master_file : FName) (f : FormId) (l : long_val) :
  fid_type f <> CFormId ->
  long_fid master_file f = Ok l ->
  exists owner i, l = LTup owner i.
Proof.
  destruct f as [c s]. intros Hc.
  destruct c as [|owner|masters|masters| |]; try contradiction;
    unfold long_fid, mod_dex; cbn [fid_type short_fid bind].
  - intros [= <-]. eauto.
  - destruct (getitem masters (Z.shiftr s 24)) as [m|e1]; cbn [bind try_except].
    + intros [= <-]. eauto.
    + destruct (exn_eqb e1 IndexError); [|discriminate].
      destruct (getitem masters (-1)); cbn [bind]; [|discriminate].
      intros [= <-]. eauto.
  - destruct (Z.shiftr s 24 >=? Z.of_nat (List.length masters) - 1).
    + destruct (getitem masters 0) as [m|e1]; cbn [bind try_except].
      * intros [= <-]. eauto.
      * destruct (exn_eqb e1 IndexError); [|discriminate].
        destruct (getitem masters (-1)); cbn [bind]; [|discriminate].
        intros [= <-]. eauto.
    + destruct (getitem masters (Z.shiftr s 24)) as [m|e1]; cbn [bind try_except].
      * intros [= <-]. eauto.
      * destruct (exn_eqb e1 IndexError); [|discriminate].
        destruct (getitem masters (-1)); cbn [bind]; [|discriminate].
        intros [= <-]. eauto.
  - intros [= <-]. unfold master_fid_long. eauto.
  - intros [= <-]. unfold master_fid_long. eauto.
Qed.

Lemma Z_cmp_swap (op : cmpop) (x y : Z) :
  Z_cmp (swap_op op) y x = Z_cmp op x y.
Proof.
  destruct op; cbn.
  - apply Z.gtb_ltb.
  - apply Z.geb_leb.
  - symmetry. apply Z.gtb_ltb.
  - symmetry. apply Z.geb_leb.
Qed.

Section OrderFacts.
Context {fn : FNameOps}.
Variable master_file : FName.

(** Without a mapper the order methods of a FormId compare long forms. *)
Lemma FormId_richcmp_no_mapper (op : cmpop) (a b : FormId) :
  FormId_richcmp master_file None op a (PFid b) =
  (r <- long_fid_cmp master_file op a b ;; Ok (Some r)).
Proof.
  unfold FormId_richcmp, long_fid_cmp, suppress, call_short_mapper.
  cbn [bind try_except exn_eqb getattr_long_fid].
  destruct (long_fid master_file a) as [l|e] eqn:Ea; cbn [bind try_except].
  - destruct (long_fid master_file b) as [l'|e'] eqn:Eb; cbn [bind try_except].
    + destruct l, l'; cbn; reflexivity.
    + rewrite (long_fid_raises _ _ _ Eb). reflexivity.
  - rewrite (long_fid_raises _ _ _ Ea). reflexivity.
Qed.

(** With a mapper that maps both operands, they compare their images. *)
Lemma FormId_richcmp_mapper (mapper : pyval -> result Z) (op : cmpop)
    (a : FormId) (b : pyval) (x y : Z) :
  mapper (PFid a) = Ok x -> mapper b = Ok y ->
  FormId_richcmp master_file (Some mapper) op a b = Ok (Some (Z_cmp op x y)).
Proof.
  intros Ha Hb. unfold FormId_richcmp, suppress, call_short_mapper.
  rewrite Ha, Hb. reflexivity.
Qed.

Lemma long_fid_cmp_swap (op : cmpop) (a b : FormId) :
  subclass_of (fid_type b) (fid_type a) = true ->
  long_fid_cmp master_file (swap_op op) b a = long_fid_cmp master_file op a b.
Proof.
  intros Hsub. unfold long_fid_cmp.
  destruct (fid_type a) eqn:Ta; try discriminate.
  - (* the left operand is a plain FormId, the right one is not *)
    assert (Hb : fid_type b <> CFormId).
    { intros Tb. rewrite Tb in Hsub. discriminate. }
    assert (Ha : long_fid master_file a = Ok (LInt (short_fid a))).
    { unfold long_fid. rewrite Ta. reflexivity. }
    rewrite Ha. cbn [bind].
    destruct (long_fid master_file b) as [l|e] eqn:Eb; cbn [bind]; [|reflexivity].
    destruct (long_fid_subclass_tuple _ _ _ Hb Eb) as (o & i & ->).
    reflexivity.
  - (* a _Tes4Fid on the left, a _DummyFid on the right *)
    destruct (fid_type b) eqn:Tb; try discriminate.
    unfold long_fid. rewrite Ta, Tb. cbn.
    rewrite FName_eqb_refl, Z_cmp_swap. reflexivity.
Qed.

Lemma op_cmp_FormId (sm : option (pyval -> result Z)) (op : cmpop)
    (a b : FormId) :
  op_cmp master_file sm op (PFid a) (PFid b) =
  binop (fun x y => match x with
                    | PFid f => FormId_richcmp master_file sm op f y
                    | _ => Ok None
                    end)
        (fun x y => match x with
                    | PFid f => FormId_richcmp master_file sm (swap_op op) f y
                    | _ => Ok None
                    end)
        (Raise TypeError) (PFid a) (PFid b).
Proof.
  destruct op; unfold op_cmp, op_lt, op_le, op_gt, op_ge, binop;
    cbn [reflected_first]; destruct (subclass_of _ _); reflexivity.
Qed.

End OrderFacts.

(** C3: two FormIds compare by their images under the dump-time mapper when
    one is active and maps them, and by long form when none is active; for
    each of [<], [<=], [>], [>=]. *)
Theorem FormId_order_short_or_long {fn : FNameOps} (master_file : FName)
    (a b : FormId) (op : cmpop) :
  (forall (mapper : pyval -> result Z) (x y : Z),
     mapper (PFid a) = Ok x ->
     mapper (PFid b) = Ok y ->
     op_cmp master_file (Some mapper) op (PFid a) (PFid b)
     = Ok (Z_cmp op x y)) /\
  op_cmp master_file None op (PFid a) (PFid b)
  = long_fid_cmp master_file op a b.
Proof.
  split.
  - intros mapper x y Ha Hb.
    rewrite op_cmp_FormId. unfold binop. cbn [reflected_first].
    destruct (subclass_of (fid_type b) (fid_type a)).
    + rewrite (FormId_richcmp_mapper _ _ _ _ _ _ _ Hb Ha). cbn [bind].
      rewrite Z_cmp_swap. reflexivity.
    + rewrite (FormId_richcmp_mapper _ _ _ _ _ _ _ Ha Hb). reflexivity.
  - rewrite op_cmp_FormId. unfold binop. cbn [reflected_first].
    destruct (subclass_of (fid_type b) (fid_type a)) eqn:Hsub.
    + rewrite FormId_richcmp_no_mapper, (long_fid_cmp_swap _ _ _ _ Hsub).
      destruct (long_fid_cmp master_file op a b); reflexivity.
    + rewrite FormId_richcmp_no_mapper.
      destruct (long_fid_cmp master_file op a b); reflexivity.
Qed.

(** Two ids of a plugin with masters Foo.esm and Bar.esp, written to a
    plugin with the same masters: Bar.esp's id 3 sorts after Foo.esm's id 5
    at dump time, and before it by long form. *)
Lemma FormId_order_short_or_long_example :
  let a := mkFormId (CMasters ["Foo.esm"; "Bar.esp"]%string) 0x01000003 in
  let b := mkFormId (CMasters ["Foo.esm"; "Bar.esp"]%string) 0x00000005 in
  let mapper :=
    @master_list_mapper lower_FNameOps "Oblivion.esm"
      ["Foo.esm"; "Bar.esp"]%string (fun _ => Raise TypeError) in
  @op_cmp lower_FNameOps "Oblivion.esm" (Some mapper) OLt (PFid a) (PFid b)
  = Ok false /\
  @op_cmp lower_FNameOps "Oblivion.esm" None OLt (PFid a) (PFid b)
  = Ok true.
Proof.
  intros a b mapper.
  destruct (@FormId_order_short_or_long lower_FNameOps "Oblivion.esm"%string
              a b OLt) as [Hshort Hlong].
  split.
  - exact (Hshort mapper 0x01000003 5 eq_refl eq_refl).
  - rewrite Hlong. reflexivity.
Defined.



(** ** Race voices *)

Section RaceVoicesFacts.
Context {fn : FNameOps}.
Variable master_file : FName.
Variable MelStruct_pack_subrecord_data : race_record -> result (list byte).

Let pack :=
  MelRaceVoices_pack_subrecord_data master_file MelStruct_pack_subrecord_data.

Lemma tuple2_ne_zero :
  tuple2_ne master_file (PInt 0) (PInt 0) (PInt 0) (PInt 0) = Ok false.
Proof. reflexivity. Qed.

Lemma pack_steps (r : race_record) (b1 b2 : bool) :
  op_eq master_file (maleVoice r) (fid r) = Ok b1 ->
  op_eq master_file (femaleVoice r) (fid r) = Ok b2 ->
  pack r =
  (zeroed b1 b2 r,
   voiced <- tuple2_ne master_file (maleVoice (zeroed b1 b2 r))
               (femaleVoice (zeroed b1 b2 r)) (PInt 0) (PInt 0) ;;
   if voiced : bool then
     b <- MelStruct_pack_subrecord_data (zeroed b1 b2 r) ;; Ok (Some b)
   else Ok None).
Proof.
  intros H1 H2. destruct r as [rf mv fv]. cbn [maleVoice femaleVoice fid] in *.
  unfold pack, MelRaceVoices_pack_subrecord_data, sbind, swrite, sret, zeroed.
  cbn [maleVoice femaleVoice fid]. rewrite H1.
  destruct b1; cbn [set_maleVoice maleVoice femaleVoice fid]; rewrite H2;
    destruct b2;
    cbn [set_maleVoice set_femaleVoice maleVoice femaleVoice fid];
    match goal with
    | |- context [tuple2_ne ?m ?a ?b ?c ?d] =>
        destruct (tuple2_ne m a b c d) as [[|]|e]; reflexivity
    end.
Qed.

End RaceVoicesFacts.



(** ** Sorting by key *)

Section ListSortFacts.
Context {A K : Type}.
Variable key : A -> K.
Variable ltb : K -> K -> bool.

Local Abbreviation le := (key_le key ltb).

Hypothesis ltb_irrefl : forall k, ltb k k = false.
Hypothesis ltb_trans :
  forall a b c, ltb a b = true -> ltb b c = true -> ltb a c = true.
Hypothesis ltb_total :
  forall a b, ltb a b = false -> ltb b a = false -> a = b.

Lemma ltb_asym a b : ltb a b = true -> ltb b a = false.
Proof.
  intros Hab. destruct (ltb b a) eqn:Hba; [|reflexivity].
  rewrite <- (ltb_irrefl a). symmetry. exact (ltb_trans _ _ _ Hab Hba).
Qed.

Lemma key_le_trans x y z : le x y -> le y z -> le x z.
Proof.
  unfold key_le. intros Hxy Hyz.
  destruct (ltb (key z) (key x)) eqn:Hzx; [|reflexivity].
  destruct (ltb (key x) (key y)) eqn:Hxy'.
  - rewrite (ltb_trans _ _ _ Hzx Hxy') in Hyz. discriminate.
  - rewrite <- (ltb_total _ _ Hxy Hxy') in Hzx. congruence.
Qed.

Lemma sort_insert_perm x l : Permutation (x :: l) (sort_insert key ltb x l).
Proof.
  induction l as [|y l IH]; cbn; [reflexivity|].
  destruct (ltb (key y) (key x)); [|reflexivity].
  rewrite perm_swap. constructor. exact IH.
Qed.

Lemma list_sort_perm l : Permutation l (list_sort key ltb l).
Proof.
  induction l as [|x l IH]; cbn; [constructor|].
  rewrite <- sort_insert_perm. constructor. exact IH.
Qed.

Lemma sort_insert_sorted x l :
  StronglySorted le l -> StronglySorted le (sort_insert key ltb x l).
Proof.
  induction 1 as [|y l Hs IH Hy]; cbn.
  - repeat constructor.
  - destruct (ltb (key y) (key x)) eqn:Hyx.
    + constructor; [exact IH|].
      rewrite <- sort_insert_perm. constructor; [|exact Hy].
      exact (ltb_asym _ _ Hyx).
    + constructor; [constructor; assumption|].
      constructor; [exact Hyx|].
      eapply Forall_impl; [|exact Hy].
      intros z Hz. exact (key_le_trans _ _ _ Hyx Hz).
Qed.

Lemma list_sort_sorted l : StronglySorted le (list_sort key ltb l).
Proof.
  induction l as [|x l IH]; cbn; [constructor|].
  apply sort_insert_sorted. exact IH.
Qed.

(** Two sorted arrangements of the same elements coincide when no two
    elements share a key. *)
Lemma sorted_perm_unique l1 :
  forall l2,
    StronglySorted le l1 -> StronglySorted le l2 ->
    Permutation l1 l2 -> NoDup (map key l1) -> l1 = l2.
Proof.
  induction l1 as [|a l1 IH]; intros l2 S1 S2 P N.
  - apply Permutation_nil in P. congruence.
  - destruct l2 as [|b l2].
    { apply Permutation_sym, Permutation_nil in P. discriminate. }
    inversion S1 as [|? ? S1' F1]; subst.
    inversion S2 as [|? ? S2' F2]; subst.
    inversion N as [|? ? Nin N']; subst.
    assert (Hab : a = b).
    { assert (Ha : In a (b :: l2)) by (eapply Permutation_in; [exact P|left; reflexivity]).
      assert (Hb : In b (a :: l1))
        by (eapply Permutation_in; [apply Permutation_sym; exact P|left; reflexivity]).
      destruct Ha as [Ha|Ha]; [congruence|].
      destruct Hb as [Hb|Hb]; [congruence|].
      exfalso. apply Nin.
      rewrite Forall_forall in F1, F2.
      specialize (F1 _ Hb). specialize (F2 _ Ha). unfold key_le in F1, F2.
      rewrite (ltb_total _ _ F2 F1). apply in_map. exact Hb. }
    subst b. f_equal.
    apply IH; try assumption.
    eapply Permutation_cons_inv. exact P.
Qed.

Lemma list_sort_perm_invariant l1 l2 :
  Permutation l1 l2 -> NoDup (map key l1) ->
  list_sort key ltb l1 = list_sort key ltb l2.
Proof.
  intros P N. apply sorted_perm_unique.
  - apply list_sort_sorted.
  - apply list_sort_sorted.
  - rewrite <- !list_sort_perm. exact P.
  - eapply Permutation_NoDup; [|exact N].
    apply Permutation_map, list_sort_perm.
Qed.

End ListSortFacts.

(** The order of [(str, int)] keys is a strict total order. *)

Lemma str_ltb_lt a b : str_ltb a b = true <-> String_as_OT.lt a b.
Proof.
  unfold str_ltb, String_as_OT.lt.
  destruct (String_as_OT.compare a b); split; congruence.
Qed.

Lemma mods_key_ltb_irrefl k : mods_key_ltb k k = false.
Proof.
  unfold mods_key_ltb. rewrite String.eqb_refl. apply Z.ltb_irrefl.
Qed.

Lemma mods_key_ltb_trans a b c :
  mods_key_ltb a b = true -> mods_key_ltb b c = true ->
  mods_key_ltb a c = true.
Proof.
  destruct a as [s1 i1], b as [s2 i2], c as [s3 i3].
  unfold mods_key_ltb. cbn [fst snd].
  destruct (String.eqb_spec s1 s2) as [E12|N12];
    destruct (String.eqb_spec s2 s3) as [E23|N23];
    destruct (String.eqb_spec s1 s3) as [E13|N13];
    subst; try congruence; rewrite ?Z.ltb_lt, ?str_ltb_lt.
  - lia.
  - intros H12 H21. exfalso.
    eapply String_as_OT.lt_strorder.
    eapply String_as_OT.lt_strorder; eassumption.
  - intros H12 H23. eapply String_as_OT.lt_strorder; eassumption.
Qed.

Lemma mods_key_ltb_total a b :
  mods_key_ltb a b = false -> mods_key_ltb b a = false -> a = b.
Proof.
  destruct a as [s1 i1], b as [s2 i2].
  unfold mods_key_ltb. cbn [fst snd]. rewrite (String.eqb_sym s2 s1).
  destruct (String.eqb_spec s1 s2) as [->|N].
  - rewrite !Z.ltb_ge. intros. f_equal. lia.
  - unfold str_ltb.
    destruct (String_as_OT.compare_spec s1 s2) as [E|L|G]; try congruence.
    unfold String_as_OT.lt in G. rewrite G. discriminate.
Qed.

Lemma pack_mods_entries_total
    (p : Z -> list byte) (e : string -> list byte) (fp : pyval -> list byte)
    (l : list mods_entry) :
  pack_mods_entries (fun z => Ok (p z)) (fun s => Ok (e s))
    (fun v => Ok (fp v)) l
  = Ok (flat_map
          (fun '(s, int_fid, index) =>
             p (Z.of_nat (String.length s)) ++ e s ++ fp int_fid ++ p index)
          l).
Proof.
  induction l as [|[[s v] i] l IH]; cbn [pack_mods_entries flat_map bind];
    [reflexivity|].
  rewrite IH. cbn [bind]. rewrite <- !app_assoc. reflexivity.
Qed.



(** ** DEBR data *)

Lemma getitem_last_but_one {A : Type} (b : list A) :
  (2 <= List.length b)%nat -> exists x, getitem b (-2) = Ok x.
Proof.
  intros Hlen. unfold getitem. cbn [Z.ltb Z.compare].
  destruct (Z.ltb_spec (-2 + Z.of_nat (List.length b)) 0); [lia|].
  destruct (Z.leb_spec (Z.of_nat (List.length b))
              (-2 + Z.of_nat (List.length b))); [lia|].
  cbn [orb].
  destruct (nth_error b (Z.to_nat (-2 + Z.of_nat (List.length b)))) eqn:E.
  - eauto.
  - apply nth_error_None in E. lia.
Qed.

Lemma int_ne_bytes {fn : FNameOps} (master_file : FName) (z : Z)
    (b : list byte) :
  op_ne master_file (PInt z) (PBytes b) = Ok true.
Proof. reflexivity. Qed.

Section DebrDataFacts.
Context {fn : FNameOps}.
Variable master_file : FName.
Variable unpack_byte : list byte -> result (list pyval).
Variable struct_unpack_B : pyval -> result (list pyval).

Let load := MelDebrData_load_mel master_file unpack_byte struct_unpack_B.

(** Nothing is assigned when [unpack_byte] raises or returns an empty
    sequence. *)
Lemma load_mel_unpack_raises (byte_data : list byte) (r : debr_record)
    (e : exn) :
  unpack_byte (slice byte_data 0 1) = Raise e ->
  load byte_data r = (r, Raise e).
Proof.
  intros Hu. unfold load, MelDebrData_load_mel, sbind, slift.
  rewrite Hu. reflexivity.
Qed.

Lemma load_mel_unpack_empty (byte_data : list byte) (r : debr_record) :
  unpack_byte (slice byte_data 0 1) = Ok [] ->
  load byte_data r = (r, Raise IndexError).
Proof.
  intros Hu. unfold load, MelDebrData_load_mel, sbind, slift.
  rewrite Hu. reflexivity.
Qed.

(** The check is reached once [unpack_byte] has returned an item. *)
Lemma load_mel_unpacked (byte_data : list byte) (r : debr_record)
    (p : pyval) (rest : list pyval) :
  unpack_byte (slice byte_data 0 1) = Ok (p :: rest) ->
  load byte_data r =
  match bytes_getitem byte_data (-2) with
  | Ok x => (mkDebr p (PBytes (slice byte_data 1 (-2))) (flags r),
             Raise ModError)
  | Raise e => (mkDebr p (PBytes (slice byte_data 1 (-2))) (flags r), Raise e)
  end.
Proof.
  intros Hu.
  unfold load, MelDebrData_load_mel, sbind, slift, swrite, sraise,
    bytes_getitem.
  rewrite Hu. cbn [bind getitem].
  destruct (getitem byte_data (-2)) as [x|e]; reflexivity.
Qed.

End DebrDataFacts.



(** The id 0x01000000: its low 24 bits are clear, so it is null. *)
Lemma is_null_low24_example :
  is_null (mkFormId (CMasters ["Foo.esm"; "Bar.esp"]%string) 0x01000000) = true.
Proof.
  apply (proj2 (proj1 is_null_low24
                  (mkFormId (CMasters ["Foo.esm"; "Bar.esp"]%string) 0x01000000))).
  apply (proj1 (land_low24_zero 0x01000000)). reflexivity.
Defined.

(** ** More on resolving form ids *)

Lemma getitem_In {A : Type} (t : list A) (i : Z) (x : A) :
  getitem t i = Ok x -> In x t.
Proof.
  unfold getitem. destruct (_ || _); [discriminate|].
  destruct (nth_error t _) eqn:E; [|discriminate].
  intros [= <-]. eapply nth_error_In. exact E.
Qed.

Lemma getitem_last {A : Type} (t : list A) :
  t <> [] ->
  exists x, nth_error t (List.length t - 1) = Some x /\ getitem t (-1) = Ok x.
Proof.
  intros Hne. unfold getitem. cbn [Z.ltb Z.compare].
  assert (Hlen : (0 < List.length t)%nat).
  { destruct t; [contradiction|cbn; lia]. }
  destruct (Z.ltb_spec (-1 + Z.of_nat (List.length t)) 0); [lia|].
  destruct (Z.leb_spec (Z.of_nat (List.length t))
              (-1 + Z.of_nat (List.length t))); [lia|].
  cbn [orb].
  replace (Z.to_nat (-1 + Z.of_nat (List.length t)))
    with (List.length t - 1)%nat by lia.
  destruct (nth_error t (List.length t - 1)) eqn:E.
  - eauto.
  - apply nth_error_None in E. lia.
Qed.

Lemma getitem_too_big {A : Type} (t : list A) (i : Z) :
  Z.of_nat (List.length t) <= i -> getitem t i = Raise IndexError.
Proof.
  intros Hi. unfold getitem.
  destruct (Z.ltb_spec i 0); [lia|].
  destruct (Z.ltb_spec i 0); [lia|].
  destruct (Z.leb_spec (Z.of_nat (List.length t)) i); [|lia].
  reflexivity.
Qed.

Lemma getitem_nil {A : Type} (i : Z) : getitem (@nil A) i = Raise IndexError.
Proof.
  unfold getitem. cbn [List.length Z.of_nat].
  destruct (i <? 0) eqn:E.
  - destruct (Z.ltb_spec (i + 0) 0); [reflexivity|].
    apply Z.ltb_lt in E. lia.
  - destruct (Z.ltb_spec i 0); [reflexivity|].
    destruct (Z.leb_spec 0 i); [reflexivity|lia].
Qed.

Lemma long_fid_masters_unfold (master_file : FName) (masters : list FName)
    (s : Z) :
  long_fid master_file (mkFormId (CMasters masters) s) =
  try_except
    (m <- getitem masters (Z.shiftr s 24) ;;
     Ok (LTup m (Z.land s 0xFFFFFF)))
    IndexError
    (m <- getitem masters (-1) ;; Ok (LTup m (Z.land s 0xFFFFFF))).
Proof. reflexivity. Qed.

Lemma long_fid_overlay_unfold (master_file : FName) (masters : list FName)
    (s : Z) :
  long_fid master_file (mkFormId (COverlay masters) s) =
  try_except
    (if Z.shiftr s 24 >=? Z.of_nat (List.length masters) - 1 then
       m <- getitem masters 0 ;; Ok (LTup m (Z.land s 0xFFFFFF))
     else
       m <- getitem masters (Z.shiftr s 24) ;;
       Ok (LTup m (Z.land s 0xFFFFFF)))
    IndexError
    (m <- getitem masters (-1) ;; Ok (LTup m (Z.land s 0xFFFFFF))).
Proof. reflexivity. Qed.

(** X1: outside overlay mode a short id whose master index is beyond the
    masters (a HITME) is clamped to the last master, the plugin itself. *)
Theorem from_masters_clamps_hitme {fn : FNameOps} (master_file : FName)
    (cache : class_cache) (masters : list FName) (s : Z) :
  reachable_cache cache ->
  masters <> [] ->
  Z.of_nat (List.length masters) <= Z.shiftr s 24 ->
  exists owner,
    nth_error masters (List.length masters - 1) = Some owner /\
    long_fid master_file (mkFormId (fst (from_masters cache masters false)) s)
    = Ok (LTup owner (Z.land s 0xFFFFFF)).
Proof.
  intros Hcache Hne Hbig.
  destruct (getitem_last masters Hne) as (owner & Hnth & Hget).
  exists owner. split; [exact Hnth|].
  rewrite (from_masters_class _ _ _ Hcache), long_fid_masters_unfold.
  rewrite (getitem_too_big _ _ Hbig), Hget. reflexivity.
Qed.

Lemma from_masters_clamps_hitme_example :
  long_fid "Oblivion.esm"
    (mkFormId
       (fst (@from_masters lower_FNameOps [] ["Foo.esm"; "Bar.esp"]%string false))
       0x05000003)
  = Ok (LTup "Bar.esp" 3).
Proof.
  destruct (@from_masters_clamps_hitme lower_FNameOps "Oblivion.esm"%string []
              ["Foo.esm"; "Bar.esp"]%string 0x05000003)
    as (owner & Hnth & Hlong).
  - constructor.
  - discriminate.
  - cbn. lia.
  - cbn in Hnth. injection Hnth as <-. exact Hlong.
Defined.

(** X2: in overlay mode a non-negative short id whose master index is the
    plugin's own or beyond resolves into the first master; a smaller master
    index resolves to that master. *)
Theorem from_masters_overlay_long_fid {fn : FNameOps} (master_file : FName)
    (cache : class_cache) (first : FName) (others : list FName) (s : Z) :
  reachable_cache cache ->
  0 <= s ->
  let masters := first :: others in
  let f := mkFormId (fst (from_masters cache masters true)) s in
  (Z.of_nat (List.length masters) - 1 <= Z.shiftr s 24 ->
   long_fid master_file f = Ok (LTup first (Z.land s 0xFFFFFF))) /\
  (Z.shiftr s 24 < Z.of_nat (List.length masters) - 1 ->
   exists owner,
     nth_error masters (Z.to_nat (Z.shiftr s 24)) = Some owner /\
     long_fid master_file f = Ok (LTup owner (Z.land s 0xFFFFFF))).
Proof.
  intros Hcache Hs masters f. subst f.
  rewrite (from_masters_class _ _ _ Hcache), long_fid_overlay_unfold.
  split.
  - intros Hge.
    destruct (Z.geb_spec (Z.shiftr s 24) (Z.of_nat (List.length masters) - 1));
      [reflexivity|lia].
  - intros Hlt.
    destruct (Z.geb_spec (Z.shiftr s 24) (Z.of_nat (List.length masters) - 1));
      [lia|].
    assert (Hd : 0 <= Z.shiftr s 24 < Z.of_nat (List.length masters)).
    { split; [apply Z.shiftr_nonneg; exact Hs|lia]. }
    destruct (getitem_nonneg masters _ Hd) as (owner & Hnth & Hget).
    exists owner. split; [exact Hnth|].
    rewrite Hget. reflexivity.
Qed.

Lemma from_masters_overlay_long_fid_example :
  let masters := ["Foo.esm"; "Bar.esm"; "Overlay.esp"]%string in
  let cls := fst (@from_masters lower_FNameOps [] masters true) in
  long_fid "Oblivion.esm" (mkFormId cls 0x02000003) = Ok (LTup "Foo.esm" 3) /\
  long_fid "Oblivion.esm" (mkFormId cls 0x01000003) = Ok (LTup "Bar.esm" 3).
Proof.
  intros masters cls.
  destruct (@from_masters_overlay_long_fid lower_FNameOps "Oblivion.esm"%string
              [] "Foo.esm"%string ["Bar.esm"; "Overlay.esp"]%string 0x02000003)
    as [Hnew _]; [constructor|lia|].
  destruct (@from_masters_overlay_long_fid lower_FNameOps "Oblivion.esm"%string
              [] "Foo.esm"%string ["Bar.esm"; "Overlay.esp"]%string 0x01000003)
    as [_ Hold]; [constructor|lia|].
  split.
  - apply Hnew. cbn. lia.
  - destruct Hold as (owner & Hnth & Hlong); [cbn; lia|].
    cbn in Hnth. injection Hnth as <-. exact Hlong.
Defined.

(** X3: with a non-empty masters tuple, in either mode and for any short
    id, the long form resolves, its owner is one of the masters, its object
    index is the low 24 bits, and [mod_fn] gives that owner. *)
Theorem from_masters_owner_in_masters {fn : FNameOps} (master_file : FName)
    (cache : class_cache) (masters : list FName) (overlay : bool) (s : Z) :
  reachable_cache cache ->
  masters <> [] ->
  let f := mkFormId (fst (from_masters cache masters overlay)) s in
  exists owner,
    In owner masters /\
    long_fid master_file f = Ok (LTup owner (Z.land s 0xFFFFFF)) /\
    mod_fn master_file f = Ok owner.
Proof.
  intros Hcache Hne f. subst f.
  destruct (getitem_last masters Hne) as (lastm & Hnth & Hlast).
  assert (Hin_last : In lastm masters) by (eapply getitem_In; exact Hlast).
  assert (Hcase : forall i,
    exists owner, In owner masters /\
      try_except
        (m <- getitem masters i ;; Ok (LTup m (Z.land s 0xFFFFFF)))
        IndexError
        (m <- getitem masters (-1) ;; Ok (LTup m (Z.land s 0xFFFFFF)))
      = Ok (LTup owner (Z.land s 0xFFFFFF))).
  { intros i. destruct (getitem masters i) as [m|e] eqn:E.
    - exists m. split; [eapply getitem_In; exact E|reflexivity].
    - rewrite (getitem_raises _ _ _ E), Hlast.
      exists lastm. split; [exact Hin_last|reflexivity]. }
  rewrite (from_masters_class _ _ _ Hcache). unfold mod_fn.
  destruct overlay.
  - rewrite long_fid_overlay_unfold.
    destruct (Z.shiftr s 24 >=? Z.of_nat (List.length masters) - 1).
    + destruct (Hcase 0) as (owner & Hin & Heq).
      exists owner. rewrite Heq. repeat split; assumption.
    + destruct (Hcase (Z.shiftr s 24)) as (owner & Hin & Heq).
      exists owner. rewrite Heq. repeat split; assumption.
  - rewrite long_fid_masters_unfold.
    destruct (Hcase (Z.shiftr s 24)) as (owner & Hin & Heq).
    exists owner. rewrite Heq. repeat split; assumption.
Qed.

Lemma from_masters_owner_in_masters_example :
  exists owner,
    In owner ["Foo.esm"; "Bar.esp"]%string /\
    long_fid "Oblivion.esm"
      (mkFormId
         (fst (@from_masters lower_FNameOps [] ["Foo.esm"; "Bar.esp"]%string true))
         (-1))
    = Ok (LTup owner (Z.land (-1) 0xFFFFFF)) /\
    mod_fn "Oblivion.esm"
      (mkFormId
         (fst (@from_masters lower_FNameOps [] ["Foo.esm"; "Bar.esp"]%string true))
         (-1))
    = Ok owner.
Proof.
  apply (@from_masters_owner_in_masters lower_FNameOps "Oblivion.esm"%string []
           ["Foo.esm"; "Bar.esp"]%string true (-1)).
  - constructor.
  - discriminate.
Defined.

(** X4: with an empty masters tuple nothing resolves: in either mode the
    long form of every short id raises IndexError. *)
Theorem from_masters_empty_raises {fn : FNameOps} (master_file : FName)
    (cache : class_cache) (overlay : bool) (s : Z) :
  reachable_cache cache ->
  long_fid master_file (mkFormId (fst (from_masters cache [] overlay)) s)
  = Raise IndexError.
Proof.
  intros Hcache. rewrite (from_masters_class _ _ _ Hcache).
  destruct overlay.
  - rewrite long_fid_overlay_unfold.
    destruct (_ >=? _); rewrite !getitem_nil; reflexivity.
  - rewrite long_fid_masters_unfold, !getitem_nil. reflexivity.
Qed.

Lemma from_masters_empty_raises_example :
  long_fid "Oblivion.esm"
    (mkFormId (fst (@from_masters lower_FNameOps [] [] false)) 0x00000003)
  = Raise IndexError.
Proof.
  apply (@from_masters_empty_raises lower_FNameOps "Oblivion.esm"%string []
           false 0x00000003).
  constructor.
Defined.

(** ** Building ids from indices *)

Lemma lor_shiftl_low (objectIndex modIndex : Z) :
  0 <= objectIndex < 2 ^ 24 ->
  Z.land (Z.lor objectIndex (Z.shiftl modIndex 24)) 0xFFFFFF = objectIndex /\
  Z.shiftr (Z.lor objectIndex (Z.shiftl modIndex 24)) 24 = modIndex.
Proof.
  intros Ho. split.
  - change 0xFFFFFF with (Z.ones 24).
    rewrite Z.land_lor_distr_l, !Z.land_ones by lia.
    rewrite Z.shiftl_mul_pow2 by lia.
    rewrite Z.mod_mul by lia. rewrite Z.lor_0_r.
    apply Z.mod_small. exact Ho.
  - rewrite Z.shiftr_lor, Z.shiftr_shiftl_l by lia.
    rewrite Z.sub_diag, Z.shiftl_0_r.
    rewrite (Z.shiftr_div_pow2 objectIndex) by lia.
    rewrite Z.div_small by exact Ho. apply Z.lor_0_l.
Qed.

(** X5: an id built by [from_object_id], on any class and for any master
    index, from an object index below 2^24 has that object index in its low
    24 bits and that master index above them. On the class [from_masters]
    returns outside overlay mode, and for a master index that is the index
    of a master, [mod_dex] is that index and the id resolves to
    [(masters[modIndex], objectIndex)]. *)
Theorem from_object_id_round_trip {fn : FNameOps} (master_file : FName)
    (cls : fid_class) (cache : class_cache) (masters : list FName)
    (modIndex objectIndex : Z) :
  0 <= objectIndex < 2 ^ 24 ->
  object_dex (from_object_id cls modIndex objectIndex) = objectIndex /\
  Z.shiftr (short_fid (from_object_id cls modIndex objectIndex)) 24
  = modIndex /\
  (reachable_cache cache ->
   0 <= modIndex < Z.of_nat (List.length masters) ->
   let f :=
     from_object_id (fst (from_masters cache masters false))
       modIndex objectIndex in
   mod_dex f = Ok modIndex /\
   exists owner,
     nth_error masters (Z.to_nat modIndex) = Some owner /\
     long_fid master_file f = Ok (LTup owner objectIndex)).
Proof.
  intros Ho. unfold from_object_id.
  destruct (lor_shiftl_low objectIndex modIndex Ho) as [Hlow Hhigh].
  split; [exact Hlow|]. split; [exact Hhigh|].
  intros Hcache Hm. cbv zeta.
  rewrite (from_masters_class _ _ _ Hcache). split.
  - unfold mod_dex. cbn [fid_type short_fid]. rewrite Hhigh. reflexivity.
  - destruct (getitem_nonneg masters _ Hm) as (owner & Hnth & Hget).
    exists owner. split; [exact Hnth|].
    rewrite long_fid_masters_unfold, Hhigh, Hget. cbn [bind try_except].
    rewrite Hlow. reflexivity.
Qed.

Lemma from_object_id_round_trip_example :
  let cls := fst (@from_masters lower_FNameOps [] ["Foo.esm"; "Bar.esp"]%string false) in
  short_fid (from_object_id cls 1 0x000ABC) = 0x01000ABC /\
  long_fid "Oblivion.esm" (from_object_id cls 1 0x000ABC)
  = Ok (LTup "Bar.esp" 0x000ABC).
Proof.
  intros cls.
  destruct (@from_object_id_round_trip lower_FNameOps "Oblivion.esm"%string
              cls [] ["Foo.esm"; "Bar.esp"]%string 1 0x000ABC)
    as (_ & _ & Hres); [lia|].
  destruct Hres as (_ & owner & Hnth & Hlong); [constructor|cbn; lia|].
  split; [reflexivity|].
  cbn in Hnth. injection Hnth as <-. exact Hlong.
Defined.

(** ** Ids built from a tuple *)

Section TupleCacheFacts.
Context {fn : FNameOps}.

Lemma tuple_cache_get_app cache k c owner :
  tuple_cache_get (cache ++ [(k, c)]) owner =
  match tuple_cache_get cache owner with
  | Some c' => Some c'
  | None => if FName_eqb k owner then Some c else None
  end.
Proof.
  induction cache as [|[k' c'] rest IH]; cbn; [reflexivity|].
  destruct (FName_eqb k' owner); [reflexivity|exact IH].
Qed.

(** Every cached class closes over a name equal to the names it answers
    for. *)
Lemma reachable_tuple_cache_classes cache :
  reachable_tuple_cache cache ->
  forall owner c,
    tuple_cache_get cache owner = Some c ->
    exists stored, c = CFromTuple stored /\ FName_eqb stored owner = true.
Proof.
  induction 1 as [|cache fid_tuple _ IH]; intros owner c.
  - discriminate.
  - unfold from_tuple.
    destruct (tuple_cache_get cache (fst fid_tuple)) eqn:E; cbn [snd].
    + apply IH.
    + rewrite tuple_cache_get_app.
      destruct (tuple_cache_get cache owner) eqn:E'.
      * intros [= <-]. apply IH. exact E'.
      * destruct (FName_eqb (fst fid_tuple) owner) eqn:Eq; [|discriminate].
        intros [= <-]. eauto.
Qed.

End TupleCacheFacts.

(** X6: an id built by [from_tuple] has the tuple's index as its long index,
    unmasked, under an owner equal to the tuple's (the name of the first
    call for that owner); it has no master index, [mod_dex] raises
    StateError. *)
Theorem from_tuple_long_fid {fn : FNameOps} (master_file : FName)
    (cache : tuple_cache) (owner : FName) (index : Z) :
  reachable_tuple_cache cache ->
  let f := fst (from_tuple cache (owner, index)) in
  mod_dex f = Raise StateError /\
  exists stored,
    FName_eqb stored owner = true /\
    long_fid master_file f = Ok (LTup stored index) /\
    mod_fn master_file f = Ok stored /\
    (tuple_cache_get cache owner = None -> stored = owner).
Proof.
  intros Hcache f. subst f. unfold from_tuple. cbn [fst snd].
  destruct (tuple_cache_get cache owner) as [c|] eqn:E; cbn [fst].
  - destruct (reachable_tuple_cache_classes _ Hcache _ _ E) as (stored & -> & Heq).
    split; [reflexivity|].
    exists stored. repeat split; [exact Heq|discriminate].
  - split; [reflexivity|].
    exists owner. repeat split. apply FName_eqb_refl.
Qed.

Lemma from_tuple_long_fid_example :
  let cache := snd (@from_tuple lower_FNameOps [] ("Oblivion.esm"%string, 7)) in
  long_fid "Oblivion.esm"
    (fst (@from_tuple lower_FNameOps cache ("OBLIVION.ESM"%string, 0x01000000)))
  = Ok (LTup "Oblivion.esm" 0x01000000).
Proof.
  intros cache.
  destruct (@from_tuple_long_fid lower_FNameOps "Oblivion.esm"%string cache
              "OBLIVION.ESM"%string 0x01000000)
    as (_ & stored & _ & Hlong & _).
  - subst cache. apply reach_tuple_call. constructor.
  - pose proof Hlong as Hstored. vm_compute in Hstored.
    injection Hstored as <-. exact Hlong.
Defined.

(** ** Equality of form ids *)

Lemma long_eqb_refl {fn : FNameOps} (l : long_val) : long_eqb l l = true.
Proof.
  destruct l as [z|o i]; cbn.
  - apply Z.eqb_refl.
  - rewrite FName_eqb_refl, Z.eqb_refl. reflexivity.
Qed.

Section EqFacts.
Context {fn : FNameOps}.
Variable master_file : FName.

Lemma FormId__eq___FormId (a b : FormId) :
  FormId__eq__ master_file a (PFid b) =
  (l <- long_fid master_file a ;;
   l' <- long_fid master_file b ;;
   Ok (Some (long_eqb l l'))).
Proof.
  unfold FormId__eq__, suppress. cbn [getattr_long_fid].
  destruct (long_fid master_file a) as [l|e] eqn:Ea; cbn [bind try_except].
  - destruct (long_fid master_file b) as [l'|e'] eqn:Eb; cbn [bind try_except].
    + reflexivity.
    + rewrite (long_fid_raises _ _ _ Eb). reflexivity.
  - rewrite (long_fid_raises _ _ _ Ea). reflexivity.
Qed.

Lemma FormId__ne___FormId (a b : FormId) :
  FormId__ne__ master_file a (PFid b) =
  (l <- long_fid master_file a ;;
   l' <- long_fid master_file b ;;
   Ok (Some (negb (long_eqb l l')))).
Proof.
  unfold FormId__ne__, suppress. cbn [getattr_long_fid].
  destruct (long_fid master_file a) as [l|e] eqn:Ea; cbn [bind try_except].
  - destruct (long_fid master_file b) as [l'|e'] eqn:Eb; cbn [bind try_except].
    + reflexivity.
    + rewrite (long_fid_raises _ _ _ Eb). reflexivity.
  - rewrite (long_fid_raises _ _ _ Ea). reflexivity.
Qed.

End EqFacts.

(** X7: on two FormIds [!=] is the negation of [==]: the two methods, each
    written out in the class, agree on every pair, also when resolving a
    long form raises. *)
Theorem FormId_ne_negates_eq {fn : FNameOps} (master_file : FName)
    (a b : FormId) :
  op_ne master_file (PFid a) (PFid b) =
  (e <- op_eq master_file (PFid a) (PFid b) ;; Ok (negb e)).
Proof.
  unfold op_ne, op_eq, binop, dunder_ne, dunder_eq. cbn [reflected_first].
  rewrite !FormId__eq___FormId, !FormId__ne___FormId.
  destruct (subclass_of (fid_type b) (fid_type a));
    destruct (long_fid master_file a), (long_fid master_file b); reflexivity.
Qed.

(** X8: identity is the long form: two FormIds that resolve to the same
    long value are equal, whatever their classes and short ids. *)
Theorem FormId_eq_same_long {fn : FNameOps} (master_file : FName)
    (a b : FormId) (l : long_val) :
  long_fid master_file a = Ok l ->
  long_fid master_file b = Ok l ->
  op_eq master_file (PFid a) (PFid b) = Ok true /\
  op_ne master_file (PFid a) (PFid b) = Ok false.
Proof.
  intros Ha Hb.
  unfold op_ne, op_eq, binop, dunder_ne, dunder_eq. cbn [reflected_first].
  rewrite !FormId__eq___FormId, !FormId__ne___FormId, Ha, Hb.
  cbn [bind]. rewrite long_eqb_refl.
  destruct (subclass_of (fid_type b) (fid_type a)); split; reflexivity.
Qed.

Lemma FormId_eq_same_long_example :
  let a := mkFormId (CMasters ["Foo.esm"; "Bar.esp"]%string) 0x01000003 in
  let b := mkFormId (CMasters ["Bar.esp"]%string) 0x00000003 in
  @op_eq lower_FNameOps "Oblivion.esm" (PFid a) (PFid b) = Ok true.
Proof.
  intros a b.
  exact (proj1 (@FormId_eq_same_long lower_FNameOps "Oblivion.esm"%string a b
                  (LTup "Bar.esp" 3) eq_refl eq_refl)).
Defined.

(** X9: a FormId whose long form resolves is never equal to [None]; against
    an int, a plain FormId equals exactly its short id, and a FormId with a
    tuple long form equals no int, not even its own short id. *)
Theorem FormId_eq_None_and_int {fn : FNameOps} (master_file : FName)
    (f : FormId) (l : long_val) :
  long_fid master_file f = Ok l ->
  op_eq master_file (PFid f) PNone = Ok false /\
  op_ne master_file (PFid f) PNone = Ok true /\
  forall z,
    op_eq master_file (PFid f) (PInt z) =
    Ok (match l with LInt s => s =? z | LTup _ _ => false end).
Proof.
  intros Hl.
  unfold op_eq, op_ne, binop, dunder_eq, dunder_ne, FormId__eq__, FormId__ne__,
    suppress.
  cbn [reflected_first getattr_long_fid]. rewrite Hl.
  repeat split. intros z. destruct l; reflexivity.
Qed.

Lemma FormId_eq_None_and_int_example :
  let f := mkFormId (CMasters ["Foo.esm"; "Bar.esp"]%string) 0x01000003 in
  @op_eq lower_FNameOps "Oblivion.esm" (PFid f) (PInt 0x01000003) = Ok false /\
  @op_eq lower_FNameOps "Oblivion.esm" (PFid (mkFormId CFormId 5)) (PInt 5)
  = Ok true.
Proof.
  intros f. split.
  - exact (proj2 (proj2 (@FormId_eq_None_and_int lower_FNameOps
                           "Oblivion.esm"%string f (LTup "Bar.esp" 3) eq_refl))
             0x01000003).
  - exact (proj2 (proj2 (@FormId_eq_None_and_int lower_FNameOps
                           "Oblivion.esm"%string (mkFormId CFormId 5) (LInt 5)
                           eq_refl))
             5).
Defined.

(** X10: the derived operators of the NONE sentinel agree with its [<],
    [>] and [==]: against a FormId [<=] is false, [>=] and [!=] are true;
    against itself [<=] and [>=] are true and [!=] is false; against an int
    the order operators raise TypeError and [==] is false. *)
Theorem NONE_FID_derived_operators {fn : FNameOps} (master_file : FName)
    (sm : option (pyval -> result Z)) (f : FormId) (z : Z) :
  op_le master_file sm NONE_FID (PFid f) = Ok false /\
  op_ge master_file sm NONE_FID (PFid f) = Ok true /\
  op_ne master_file NONE_FID (PFid f) = Ok true /\
  op_le master_file sm NONE_FID NONE_FID = Ok true /\
  op_ge master_file sm NONE_FID NONE_FID = Ok true /\
  op_ne master_file NONE_FID NONE_FID = Ok false /\
  op_lt master_file sm NONE_FID (PInt z) = Raise TypeError /\
  op_le master_file sm NONE_FID (PInt z) = Raise TypeError /\
  op_gt master_file sm NONE_FID (PInt z) = Raise TypeError /\
  op_ge master_file sm NONE_FID (PInt z) = Raise TypeError /\
  op_eq master_file NONE_FID (PInt z) = Ok false.
Proof. repeat split. Qed.

(** ** Fog projectile flag *)

Lemma fog_mask_bits (n : Z) :
  0 <= n -> Z.testbit fog_mask n = (n =? 25) || (n =? 26).
Proof.
  intros Hn. change fog_mask with (Z.lor (2 ^ 25) (2 ^ 26)).
  rewrite Z.lor_spec, !Z.pow2_bits_eqb by lia.
  rewrite (Z.eqb_sym 25 n), (Z.eqb_sym 26 n). reflexivity.
Qed.

(** X11: [fog_projectile_type] is true exactly when bits 25 and 26 are both
    set; its setter writes those two bits and no other, so reading after
    writing gives the value written. *)
Theorem fog_projectile_type_bits (field : Z) (v : bool) :
  fog_projectile_type field = Z.testbit field 25 && Z.testbit field 26 /\
  (forall j : N,
     Z.testbit (set_fog_projectile_type field v) (Z.of_N j) =
     if ((j =? 25) || (j =? 26))%N then v else Z.testbit field (Z.of_N j)) /\
  fog_projectile_type (set_fog_projectile_type field v) = v.
Proof.
  assert (Hget : forall x,
    fog_projectile_type x = Z.testbit x 25 && Z.testbit x 26).
  { intros x. unfold fog_projectile_type.
    destruct (Z.testbit x 25 && Z.testbit x 26) eqn:E.
    - apply andb_true_iff in E. destruct E as [E25 E26].
      apply Z.eqb_eq, Z.bits_inj'. intros n Hn.
      rewrite Z.land_spec, fog_mask_bits by exact Hn.
      destruct (Z.eqb_spec n 25) as [->|]; [rewrite E25; reflexivity|].
      destruct (Z.eqb_spec n 26) as [->|]; [rewrite E26; reflexivity|].
      apply andb_false_r.
    - apply Z.eqb_neq. intros H.
      assert (H25 : Z.testbit (Z.land x fog_mask) 25 = Z.testbit fog_mask 25)
        by (rewrite H; reflexivity).
      assert (H26 : Z.testbit (Z.land x fog_mask) 26 = Z.testbit fog_mask 26)
        by (rewrite H; reflexivity).
      rewrite Z.land_spec, fog_mask_bits in H25, H26 by lia.
      change ((25 =? 25) || (25 =? 26)) with true in H25.
      change ((26 =? 25) || (26 =? 26)) with true in H26.
      rewrite andb_true_r in H25, H26.
      rewrite H25, H26 in E. discriminate. }
  assert (Hset : forall j : N,
     Z.testbit (set_fog_projectile_type field v) (Z.of_N j) =
     if ((j =? 25) || (j =? 26))%N then v else Z.testbit field (Z.of_N j)).
  { intros j. unfold set_fog_projectile_type.
    rewrite Z.lor_spec, Z.land_spec, Z.lnot_spec, fog_mask_bits by lia.
    assert (H25 : (Z.of_N j =? 25) = (j =? 25)%N).
    { destruct (N.eqb_spec j 25) as [->|]; [reflexivity|].
      apply Z.eqb_neq. lia. }
    assert (H26 : (Z.of_N j =? 26) = (j =? 26)%N).
    { destruct (N.eqb_spec j 26) as [->|]; [reflexivity|].
      apply Z.eqb_neq. lia. }
    rewrite H25, H26.
    destruct ((j =? 25) || (j =? 26))%N eqn:E.
    - cbn [negb]. rewrite andb_false_r. cbn [orb].
      destruct v; [|apply Z.bits_0].
      rewrite fog_mask_bits, H25, H26 by lia. exact E.
    - cbn [negb]. rewrite andb_true_r.
      destruct v; [rewrite fog_mask_bits, H25, H26, E by lia|rewrite Z.bits_0];
        apply orb_false_r. }
  split; [apply Hget|]. split; [exact Hset|].
  rewrite Hget.
  pose proof (Hset 25%N) as S25. pose proof (Hset 26%N) as S26.
  change (Z.of_N 25) with 25 in S25. change (Z.of_N 26) with 26 in S26.
  change ((25 =? 25) || (25 =? 26))%N with true in S25.
  change ((26 =? 25) || (26 =? 26))%N with true in S26.
  rewrite S25, S26. apply andb_diag.
Qed.

(** ** Remapping and sorting MODS lists *)

Section ListSortMore.
Context {A K : Type}.
Variable key : A -> K.
Variable ltb : K -> K -> bool.

Lemma sort_insert_map (h : A -> A) x l :
  (forall y, key (h y) = key y) ->
  sort_insert key ltb (h x) (map h l) = map h (sort_insert key ltb x l).
Proof.
  intros Hh. induction l as [|y l IH]; cbn; [reflexivity|].
  rewrite !Hh. destruct (ltb (key y) (key x)); cbn; [rewrite IH|]; reflexivity.
Qed.

Lemma list_sort_map (h : A -> A) l :
  (forall y, key (h y) = key y) ->
  list_sort key ltb (map h l) = map h (list_sort key ltb l).
Proof.
  intros Hh. induction l as [|x l IH]; cbn; [reflexivity|].
  rewrite IH. apply sort_insert_map. exact Hh.
Qed.

Lemma list_sort_fixed l :
  StronglySorted (key_le key ltb) l -> list_sort key ltb l = l.
Proof.
  induction 1 as [|x l Hs IH Hx]; cbn; [reflexivity|].
  rewrite IH. destruct l as [|y l']; cbn; [reflexivity|].
  inversion Hx as [|? ? Hxy _]; subst. unfold key_le in Hxy.
  rewrite Hxy. reflexivity.
Qed.

Lemma filter_sort_insert (p : A -> bool) x l :
  (forall a b, p a = true -> p b = true -> ltb (key b) (key a) = false) ->
  filter p (sort_insert key ltb x l) = filter p (x :: l).
Proof.
  intros Hp. induction l as [|y l IH]; cbn; [reflexivity|].
  destruct (ltb (key y) (key x)) eqn:E; [|reflexivity].
  cbn. rewrite IH. cbn.
  destruct (p x) eqn:Px, (p y) eqn:Py; try reflexivity.
  rewrite (Hp _ _ Px Py) in E. discriminate.
Qed.

Lemma filter_list_sort (p : A -> bool) l :
  (forall a b, p a = true -> p b = true -> ltb (key b) (key a) = false) ->
  filter p (list_sort key ltb l) = filter p l.
Proof.
  intros Hp. induction l as [|x l IH]; cbn; [reflexivity|].
  rewrite (filter_sort_insert p x _ Hp). cbn. rewrite IH. reflexivity.
Qed.

End ListSortMore.

Lemma map_mods_fids_total (g : pyval -> pyval) (l : list mods_entry) :
  map_mods_fids (fun v => Ok (g v)) l = Ok (map (remap_entry g) l).
Proof.
  induction l as [|[[s v] i] l IH]; cbn; [reflexivity|].
  rewrite IH. reflexivity.
Qed.

(** X12: [MelMODS.mapFids] without [save_fids] never changes the record,
    even when the function raises; with [save_fids] and a function that
    always returns, it replaces each form id and keeps names, indices and
    length, so the MODS list is dumped in the same key order as before. *)
Theorem MelMODS_mapFids_keeps_order
    (function : pyval -> result pyval) (g : pyval -> pyval)
    (mods_data : option (list mods_entry)) (l : list mods_entry) :
  fst (MelMODS_mapFids function false mods_data) = mods_data /\
  MelMODS_mapFids (fun v => Ok (g v)) true (Some l)
  = (Some (map (remap_entry g) l), Ok tt) /\
  map mods_key (map (remap_entry g) l) = map mods_key l /\
  list_sort mods_key mods_key_ltb (map (remap_entry g) l)
  = map (remap_entry g) (list_sort mods_key mods_key_ltb l).
Proof.
  assert (Hkey : forall e, mods_key (remap_entry g e) = mods_key e)
    by (intros [[s v] i]; reflexivity).
  split; [|split; [|split]].
  - unfold MelMODS_mapFids. destruct mods_data as [l0|]; [|reflexivity].
    destruct (map_mods_fids function l0); reflexivity.
  - unfold MelMODS_mapFids. rewrite map_mods_fids_total. reflexivity.
  - rewrite map_map. apply map_ext. exact Hkey.
  - apply list_sort_map. exact Hkey.
Qed.

(** X13: dumping a MODS list twice is the same as dumping it once: the
    record left by [pack_subrecord_data] packs to the same bytes and is
    left unchanged. *)
Theorem MelMODS_pack_idempotent
    (packer : Z -> result (list byte))
    (encode : string -> result (list byte))
    (fid_packer : pyval -> result (list byte))
    (mods_data : option (list mods_entry)) :
  let out := MelMODS_pack_subrecord_data packer encode fid_packer mods_data in
  MelMODS_pack_subrecord_data packer encode fid_packer (fst out) = out.
Proof.
  destruct mods_data as [l|]; [|reflexivity].
  cbn [MelMODS_pack_subrecord_data fst].
  rewrite list_sort_fixed; [reflexivity|].
  apply list_sort_sorted.
  - exact mods_key_ltb_irrefl.
  - exact mods_key_ltb_trans.
  - exact mods_key_ltb_total.
Qed.

(** X14: the sort of the MODS list is stable: the entries that share a key
    [(name, index)] are dumped in the order they had in the record. *)
Theorem MelMODS_sort_stable (l : list mods_entry) (k : string * Z) :
  filter (fun e => mods_key_eqb (mods_key e) k)
    (list_sort mods_key mods_key_ltb l)
  = filter (fun e => mods_key_eqb (mods_key e) k) l.
Proof.
  apply filter_list_sort. intros a b Ha Hb.
  unfold mods_key_eqb in Ha, Hb.
  apply andb_true_iff in Ha, Hb.
  destruct Ha as [Ha1 Ha2], Hb as [Hb1 Hb2].
  apply String.eqb_eq in Ha1, Hb1. apply Z.eqb_eq in Ha2, Hb2.
  assert (Hab : mods_key b = mods_key a).
  { destruct (mods_key a), (mods_key b); cbn in *; congruence. }
  rewrite Hab. apply mods_key_ltb_irrefl.
Qed.

(** ** Writing and reading back DEBR data *)

Lemma slice_middle (b : byte) (m : list byte) (tail : list byte) :
  List.length tail = 2%nat ->
  slice ([b] ++ m ++ tail) 0 1 = [b] /\
  slice ([b] ++ m ++ tail) 1 (-2) = m.
Proof.
  intros Ht. unfold slice, slice_bound.
  rewrite !length_app, Ht. cbn [List.length].
  split.
  - cbn [Z.ltb Z.compare].
    replace (Z.min 1 (Z.of_nat (1 + (List.length m + 2)))) with 1 by lia.
    replace (Z.min 0 (Z.of_nat (1 + (List.length m + 2)))) with 0 by lia.
    reflexivity.
  - cbn [Z.ltb Z.compare].
    replace (Z.min 1 (Z.of_nat (1 + (List.length m + 2)))) with 1 by lia.
    replace (Z.max (-2 + Z.of_nat (1 + (List.length m + 2))) 0)
      with (Z.of_nat (List.length m) + 1) by lia.
    replace (Z.to_nat (Z.of_nat (List.length m) + 1 - 1))
      with (List.length m) by lia.
    change (skipn (Z.to_nat 1) ([b] ++ m ++ tail)) with (m ++ tail).
    rewrite firstn_app, Nat.sub_diag, firstn_all. cbn [firstn].
    apply app_nil_r.
Qed.

(** X15: what [MelDebrData.pack_subrecord_data] writes cannot be read back.
    For a record whose [modPath] is bytes and whose [percentage] and [flags]
    [struct_pack] packs to one byte each, the bytes written are the
    percentage byte, the path, a null and the flags byte; on those bytes
    [load_mel] never returns normally and never assigns [flags], whatever
    [unpack_byte] does, and when [unpack_byte] returns an item it assigns
    that item to [percentage], restores [modPath] exactly and raises
    ModError. *)
Theorem MelDebrData_pack_then_load {fn : FNameOps} (master_file : FName)
    (struct_pack_B : pyval -> result (list byte))
    (unpack_byte : list byte -> result (list pyval))
    (struct_unpack_B : pyval -> result (list pyval))
    (r r0 : debr_record) (b c : byte) (m : list byte) :
  struct_pack_B (percentage r) = Ok [b] ->
  struct_pack_B (flags r) = Ok [c] ->
  modPath r = PBytes m ->
  exists data,
    MelDebrData_pack_subrecord_data struct_pack_B r = Ok data /\
    data = [b] ++ m ++ [x00; c] /\
    let out :=
      MelDebrData_load_mel master_file unpack_byte struct_unpack_B data r0 in
    (forall p rest,
       unpack_byte [b] = Ok (p :: rest) ->
       out = (mkDebr p (modPath r) (flags r0), Raise ModError)) /\
    flags (fst out) = flags r0 /\
    (forall u, snd out <> Ok u).
Proof.
  intros Hp Hf Hm.
  exists ([b] ++ m ++ [x00; c]). split; [|split; [reflexivity|]].
  - unfold MelDebrData_pack_subrecord_data. rewrite Hp, Hf, Hm. reflexivity.
  - destruct (slice_middle b m [x00; c] eq_refl) as [Hfirst Hmid].
    assert (Hlen : (2 <= List.length ([b] ++ m ++ [x00; c]))%nat).
    { rewrite !length_app. cbn. lia. }
    destruct (getitem_last_but_one _ Hlen) as [x Hx].
    assert (Hget : bytes_getitem ([b] ++ m ++ [x00; c]) (-2)
                   = Ok (PInt (Z.of_N (Byte.to_N x)))).
    { unfold bytes_getitem. rewrite Hx. reflexivity. }
    cbv zeta. split.
    + intros p rest Hu. rewrite <- Hfirst in Hu.
      rewrite (load_mel_unpacked _ _ _ _ _ _ _ Hu), Hget, Hmid, Hm.
      reflexivity.
    + destruct (unpack_byte (slice ([b] ++ m ++ [x00; c]) 0 1))
        as [[|p rest]|e] eqn:Hu.
      * rewrite (load_mel_unpack_empty _ _ _ _ _ Hu).
        split; [reflexivity|discriminate].
      * rewrite (load_mel_unpacked _ _ _ _ _ _ _ Hu), Hget.
        split; [reflexivity|discriminate].
      * rewrite (load_mel_unpack_raises _ _ _ _ _ _ Hu).
        split; [reflexivity|discriminate].
Qed.

(** A record written and read back, with a stand-in for [unpack_byte] that
    answers 7. *)
Lemma MelDebrData_pack_then_load_example :
  let r := mkDebr (PInt 7) (PBytes [x41; x42]) (PInt 1) in
  MelDebrData_pack_subrecord_data struct_pack_B_int r
  = Ok [x07; x41; x42; x00; x01] /\
  @MelDebrData_load_mel lower_FNameOps "Oblivion.esm" (fun _ => Ok [PInt 7])
    (fun _ => Raise TypeError) [x07; x41; x42; x00; x01]
    (mkDebr (PInt 0) (PBytes null1) (PInt 0))
  = (mkDebr (PInt 7) (PBytes [x41; x42]) (PInt 0), Raise ModError).
Proof.
  intros r.
  destruct (@MelDebrData_pack_then_load lower_FNameOps "Oblivion.esm"%string
              struct_pack_B_int (fun _ => Ok [PInt 7])
              (fun _ => Raise TypeError) r
              (mkDebr (PInt 0) (PBytes null1) (PInt 0)) x07 x01 [x41; x42]
              eq_refl eq_refl eq_refl)
    as (data & Hpack & -> & Hload & _).
  split; [exact Hpack|].
  exact (Hload (PInt 7) [] eq_refl).
Defined.

(** X16: on a chunk of exactly one byte [load_mel] never raises ModError of
    its own: when [unpack_byte] returns an item, it assigns that item to
    [percentage] and the empty bytes to [modPath] and then fails with
    IndexError at [byte_data[-2]]; in every case [flags] is not assigned and
    the call does not return normally. *)
Theorem MelDebrData_load_mel_one_byte {fn : FNameOps} (master_file : FName)
    (unpack_byte : list byte -> result (list pyval))
    (struct_unpack_B : pyval -> result (list pyval))
    (b : byte) (r : debr_record) :
  let out :=
    MelDebrData_load_mel master_file unpack_byte struct_unpack_B [b] r in
  (forall p rest,
     unpack_byte [b] = Ok (p :: rest) ->
     out = (mkDebr p (PBytes []) (flags r), Raise IndexError)) /\
  flags (fst out) = flags r /\
  (forall u, snd out <> Ok u).
Proof.
  cbv zeta.
  assert (Hget : bytes_getitem [b] (-2) = Raise IndexError) by reflexivity.
  split.
  - intros p rest Hu. change [b] with (slice [b] 0 1) in Hu.
    rewrite (load_mel_unpacked _ _ _ _ _ _ _ Hu), Hget. reflexivity.
  - destruct (unpack_byte (slice [b] 0 1)) as [[|p rest]|e] eqn:Hu.
    + rewrite (load_mel_unpack_empty _ _ _ _ _ Hu).
      split; [reflexivity|discriminate].
    + rewrite (load_mel_unpacked _ _ _ _ _ _ _ Hu), Hget.
      split; [reflexivity|discriminate].
    + rewrite (load_mel_unpack_raises _ _ _ _ _ _ Hu).
      split; [reflexivity|discriminate].
Qed.

(** A chunk of one byte, with a stand-in for [unpack_byte] that answers 7. *)
Lemma MelDebrData_load_mel_one_byte_example :
  @MelDebrData_load_mel lower_FNameOps "Oblivion.esm" (fun _ => Ok [PInt 7])
    (fun _ => Raise TypeError) [x07]
    (mkDebr (PInt 0) (PBytes null1) (PInt 0))
  = (mkDebr (PInt 7) (PBytes []) (PInt 0), Raise IndexError).
Proof.
  exact (proj1 (@MelDebrData_load_mel_one_byte lower_FNameOps
                  "Oblivion.esm"%string (fun _ => Ok [PInt 7])
                  (fun _ => Raise TypeError) x07
                  (mkDebr (PInt 0) (PBytes null1) (PInt 0)))
               (PInt 7) [] eq_refl).
Defined.

(** ** Active plugins lists *)

Lemma str_ltb_irrefl a : str_ltb a a = false.
Proof.
  destruct (str_ltb a a) eqn:E; [|reflexivity].
  apply str_ltb_lt in E. exfalso.
  eapply String_as_OT.lt_strorder. exact E.
Qed.

Lemma str_ltb_trans a b c :
  str_ltb a b = true -> str_ltb b c = true -> str_ltb a c = true.
Proof.
  rewrite !str_ltb_lt. apply String_as_OT.lt_strorder.
Qed.

Lemma str_ltb_total a b : str_ltb a b = false -> str_ltb b a = false -> a = b.
Proof.
  unfold str_ltb.
  destruct (String_as_OT.compare_spec a b) as [E|L|G]; try congruence.
  unfold String_as_OT.lt in G. rewrite G. discriminate.
Qed.

Section LoadListFacts.
Import Mods_LoadListData.

Lemma getitem_In_keys d k v :
  Mods_LoadListData.getitem d k = Ok v -> In k (map fst d).
Proof.
  induction d as [|[k' v'] d IH]; cbn; [discriminate|].
  destruct (String.eqb_spec k' k) as [->|_]; [left; reflexivity|].
  intros H. right. apply IH. exact H.
Qed.

Lemma getitem_not_In_keys d k :
  ~ In k (map fst d) -> Mods_LoadListData.getitem d k = Raise KeyError.
Proof.
  induction d as [|[k' v'] d IH]; cbn; [reflexivity|].
  intros Hn. destruct (String.eqb_spec k' k) as [->|_].
  - exfalso. apply Hn. left. reflexivity.
  - apply IH. intros H. apply Hn. right. exact H.
Qed.

Lemma getitem_setitem_same d k v :
  Mods_LoadListData.getitem (setitem d k v) k = Ok v.
Proof.
  induction d as [|[k' v'] d IH]; cbn.
  - rewrite String.eqb_refl. reflexivity.
  - destruct (String.eqb_spec k' k) as [->|N]; cbn.
    + rewrite String.eqb_refl. reflexivity.
    + rewrite (proj2 (String.eqb_neq _ _) N). exact IH.
Qed.

Lemma getitem_setitem_other d k v k0 :
  k0 <> k ->
  Mods_LoadListData.getitem (setitem d k v) k0 = Mods_LoadListData.getitem d k0.
Proof.
  intros Hne. induction d as [|[k' v'] d IH]; cbn.
  - rewrite (proj2 (String.eqb_neq _ _)) by congruence. reflexivity.
  - destruct (String.eqb_spec k' k) as [->|N]; cbn.
    + rewrite (proj2 (String.eqb_neq k k0)) by congruence. reflexivity.
    + destruct (k' =? k0)%string; [reflexivity|exact IH].
Qed.

Lemma setitem_keys d k v x :
  In x (map fst (setitem d k v)) <-> x = k \/ In x (map fst d).
Proof.
  induction d as [|[k' v'] d IH]; cbn.
  - intuition.
  - destruct (String.eqb_spec k' k) as [->|N]; cbn.
    + intuition.
    + rewrite IH. intuition.
Qed.

Lemma setitem_NoDup d k v :
  NoDup (map fst d) -> NoDup (map fst (setitem d k v)).
Proof.
  induction d as [|[k' v'] d IH]; cbn; intros Hn.
  - repeat constructor. intros [].
  - inversion Hn as [|? ? Hnin Hn']; subst.
    destruct (String.eqb_spec k' k) as [->|N]; cbn.
    + constructor; assumption.
    + constructor; [|apply IH; exact Hn'].
      rewrite setitem_keys. intros [->|H]; [congruence|contradiction].
Qed.

Lemma delitem_present d k v :
  Mods_LoadListData.getitem d k = Ok v -> exists d', delitem d k = Ok d'.
Proof.
  induction d as [|[k' v'] d IH]; cbn; [discriminate|].
  destruct (k' =? k)%string; [eauto|].
  intros H. destruct (IH H) as [d' ->]. cbn. eauto.
Qed.

Lemma delitem_keys d k d' x :
  delitem d k = Ok d' -> In x (map fst d') -> In x (map fst d).
Proof.
  revert d'. induction d as [|[k' v'] d IH]; cbn; intros d'; [discriminate|].
  destruct (k' =? k)%string.
  - intros [= <-] H. right. exact H.
  - destruct (delitem d k) as [r|e]; cbn; [|discriminate].
    intros [= <-]. cbn. intros [H|H]; [left; exact H|right; eapply IH; eauto].
Qed.

Lemma getitem_delitem_same d k d' :
  NoDup (map fst d) -> delitem d k = Ok d' ->
  Mods_LoadListData.getitem d' k = Raise KeyError.
Proof.
  revert d'. induction d as [|[k' v'] d IH]; cbn; intros d' Hn; [discriminate|].
  inversion Hn as [|? ? Hnin Hn']; subst.
  destruct (String.eqb_spec k' k) as [->|N].
  - intros [= <-]. apply getitem_not_In_keys. exact Hnin.
  - destruct (delitem d k) as [r|e] eqn:E; cbn; [|discriminate].
    intros [= <-]. cbn. rewrite (proj2 (String.eqb_neq _ _) N).
    apply IH; [exact Hn'|reflexivity].
Qed.

Lemma getitem_delitem_other d k d' k0 :
  delitem d k = Ok d' -> k0 <> k ->
  Mods_LoadListData.getitem d' k0 = Mods_LoadListData.getitem d k0.
Proof.
  revert d'. induction d as [|[k' v'] d IH]; cbn; intros d'; [discriminate|].
  destruct (String.eqb_spec k' k) as [->|N].
  - intros [= <-] Hne.
    rewrite (proj2 (String.eqb_neq k k0)) by congruence. reflexivity.
  - destruct (delitem d k) as [r|e] eqn:E; cbn; [|discriminate].
    intros [= <-] Hne. cbn.
    destruct (k' =? k0)%string; [reflexivity|].
    apply IH; [reflexivity|exact Hne].
Qed.

Lemma rename_valid_steps d oldName newName v :
  (1 <= String.length newName <= 64)%nat ->
  Mods_LoadListData.getitem d oldName = Ok v ->
  exists d',
    delitem (setitem d newName v) oldName = Ok d' /\
    rename oldName newName d = (d', Ok (Some newName)).
Proof.
  intros Hlen Hget. unfold rename.
  destruct (Nat.eqb_spec (String.length newName) 0) as [E|_]; [lia|].
  destruct (Nat.ltb_spec 64 (String.length newName)) as [E|_]; [lia|].
  cbn [orb]. rewrite Hget.
  assert (Hold : exists v', Mods_LoadListData.getitem (setitem d newName v) oldName = Ok v').
  { destruct (String.eqb_spec oldName newName) as [->|N].
    - rewrite getitem_setitem_same. eauto.
    - rewrite getitem_setitem_other by exact N. eauto. }
  destruct Hold as [v' Hv'].
  destruct (delitem_present _ _ _ Hv') as [d' Hd'].
  exists d'. rewrite Hd'. split; reflexivity.
Qed.

End LoadListFacts.

(** X17: renaming a load list to a different name of 1 to 64 characters
    moves its plugins under the new name (replacing a list already stored
    under that name), removes the old name and leaves every other list as it
    was. *)
Theorem rename_moves_list (d : Mods_LoadListData.loadListDict)
    (oldName newName : string) (v : list FName) :
  NoDup (map fst d) ->
  (1 <= String.length newName <= 64)%nat ->
  oldName <> newName ->
  Mods_LoadListData.getitem d oldName = Ok v ->
  exists d',
    Mods_LoadListData.rename oldName newName d = (d', Ok (Some newName)) /\
    Mods_LoadListData.getitem d' newName = Ok v /\
    Mods_LoadListData.getitem d' oldName = Raise KeyError /\
    (forall k, k <> oldName -> k <> newName ->
               Mods_LoadListData.getitem d' k = Mods_LoadListData.getitem d k) /\
    NoDup (map fst d').
Proof.
  intros Hn Hlen Hne Hget.
  destruct (rename_valid_steps d oldName newName v Hlen Hget) as (d' & Hdel & Hren).
  exists d'. split; [exact Hren|].
  assert (Hn1 : NoDup (map fst (Mods_LoadListData.setitem d newName v)))
    by (apply setitem_NoDup; exact Hn).
  split; [|split; [|split]].
  - rewrite (getitem_delitem_other _ _ _ _ Hdel) by congruence.
    apply getitem_setitem_same.
  - exact (getitem_delitem_same _ _ _ Hn1 Hdel).
  - intros k Hk1 Hk2.
    rewrite (getitem_delitem_other _ _ _ _ Hdel) by exact Hk1.
    apply getitem_setitem_other. exact Hk2.
  - clear Hren. revert d' Hdel Hn1.
    generalize (Mods_LoadListData.setitem d newName v) as d1.
    induction d1 as [|[k' v'] d1 IH]; cbn; intros d' Hdel Hn1; [discriminate|].
    inversion Hn1 as [|? ? Hnin Hn1']; subst.
    destruct (k' =? oldName)%string.
    + injection Hdel as <-. exact Hn1'.
    + destruct (Mods_LoadListData.delitem d1 oldName) as [r|e] eqn:E;
        cbn in Hdel; [|discriminate].
      injection Hdel as <-. cbn. constructor; [|apply IH; auto].
      intros Hin. apply Hnin. eapply delitem_keys; eauto.
Qed.

Lemma rename_moves_list_example :
  let d := [("Base"%string, ["Foo.esm"%string]);
            ("Big"%string, ["Foo.esm"; "Bar.esp"]%string)] in
  Mods_LoadListData.rename "Big" "Full" d
  = ([("Base"%string, ["Foo.esm"%string]);
      ("Full"%string, ["Foo.esm"; "Bar.esp"]%string)],
     Ok (Some "Full"%string)).
Proof.
  intros d.
  destruct (rename_moves_list d "Big" "Full" ["Foo.esm"; "Bar.esp"]%string)
    as (d' & Hren & _).
  - subst d. cbn. repeat constructor; cbn; intuition discriminate.
  - cbn. lia.
  - discriminate.
  - reflexivity.
  - reflexivity.
Defined.

(** X18: renaming a load list to the name it already has deletes it: the
    call answers with the name, but the list is no longer stored. *)
Theorem rename_to_same_name_deletes (d : Mods_LoadListData.loadListDict)
    (name : string) (v : list FName) :
  NoDup (map fst d) ->
  (1 <= String.length name <= 64)%nat ->
  Mods_LoadListData.getitem d name = Ok v ->
  exists d',
    Mods_LoadListData.rename name name d = (d', Ok (Some name)) /\
    Mods_LoadListData.getitem d' name = Raise KeyError /\
    (forall k, k <> name ->
               Mods_LoadListData.getitem d' k = Mods_LoadListData.getitem d k).
Proof.
  intros Hn Hlen Hget.
  destruct (rename_valid_steps d name name v Hlen Hget) as (d' & Hdel & Hren).
  exists d'. split; [exact Hren|].
  assert (Hn1 : NoDup (map fst (Mods_LoadListData.setitem d name v)))
    by (apply setitem_NoDup; exact Hn).
  split.
  - exact (getitem_delitem_same _ _ _ Hn1 Hdel).
  - intros k Hk.
    rewrite (getitem_delitem_other _ _ _ _ Hdel) by exact Hk.
    apply getitem_setitem_other. exact Hk.
Qed.

Lemma rename_to_same_name_deletes_example :
  let d := [("Base"%string, ["Foo.esm"%string]);
            ("Big"%string, ["Foo.esm"; "Bar.esp"]%string)] in
  Mods_LoadListData.rename "Big" "Big" d
  = ([("Base"%string, ["Foo.esm"%string])], Ok (Some "Big"%string)).
Proof.
  intros d.
  destruct (rename_to_same_name_deletes d "Big" ["Foo.esm"; "Bar.esp"]%string)
    as (d' & Hren & _).
  - subst d. cbn. repeat constructor; cbn; intuition discriminate.
  - cbn. lia.
  - reflexivity.
  - reflexivity.
Defined.

(** X19: a rename is refused, with the dict untouched, when the new name is
    empty or longer than 64 characters; with a name of valid length and an
    old name that is not stored it raises KeyError, the dict untouched as
    well. *)
Theorem rename_refused (d : Mods_LoadListData.loadListDict)
    (oldName newName : string) :
  ((String.length newName = 0 \/ 64 < String.length newName)%nat ->
   Mods_LoadListData.rename oldName newName d = (d, Ok None)) /\
  ((1 <= String.length newName <= 64)%nat ->
   ~ In oldName (map fst d) ->
   Mods_LoadListData.rename oldName newName d = (d, Raise KeyError)).
Proof.
  unfold Mods_LoadListData.rename. split.
  - intros Hlen.
    destruct (Nat.eqb_spec (String.length newName) 0) as [E|N];
      [reflexivity|].
    destruct (Nat.ltb_spec 64 (String.length newName)) as [E|N'];
      [reflexivity|lia].
  - intros Hlen Hnin.
    destruct (Nat.eqb_spec (String.length newName) 0) as [E|_]; [lia|].
    destruct (Nat.ltb_spec 64 (String.length newName)) as [E|_]; [lia|].
    cbn [orb]. rewrite (getitem_not_In_keys _ _ Hnin). reflexivity.
Qed.

Lemma rename_refused_example :
  let d := [("Base"%string, ["Foo.esm"%string])] in
  Mods_LoadListData.rename "Base" "" d = (d, Ok None) /\
  Mods_LoadListData.rename "Other" "New" d = (d, Raise KeyError).
Proof.
  intros d. split.
  - apply (proj1 (rename_refused d "Base" "")). left. reflexivity.
  - apply (proj2 (rename_refused d "Other" "New")).
    + cbn. lia.
    + cbn. intuition discriminate.
Defined.

(** X20: [getItemList] lists every load list name exactly as often as it is
    stored, in the order of the lower-cased names; names that differ in
    case only keep the order they have in the dict. *)
Theorem getItemList_sorted (d : Mods_LoadListData.loadListDict)
    (lowered : string) :
  Permutation (map fst d) (Mods_LoadListData.getItemList d) /\
  StronglySorted (key_le str_lower str_ltb) (Mods_LoadListData.getItemList d) /\
  filter (fun a => String.eqb (str_lower a) lowered)
    (Mods_LoadListData.getItemList d)
  = filter (fun a => String.eqb (str_lower a) lowered) (map fst d).
Proof.
  unfold Mods_LoadListData.getItemList. split; [|split].
  - apply list_sort_perm.
  - apply list_sort_sorted.
    + exact str_ltb_irrefl.
    + exact str_ltb_trans.
    + exact str_ltb_total.
  - apply filter_list_sort. intros a b Ha Hb.
    apply String.eqb_eq in Ha, Hb. rewrite Ha, Hb. apply str_ltb_irrefl.
Qed.

(** ** Bash tags through a CSV field *)

Lemma split_comma_nonempty s : split_comma s <> [].
Proof.
  destruct s as [|c s]; cbn; [discriminate|].
  destruct (split_comma s); [discriminate|].
  destruct (Ascii.eqb c ","); discriminate.
Qed.

Lemma split_comma_app t s piece rest :
  no_comma t = true ->
  split_comma s = piece :: rest ->
  split_comma (t ++ s) = (t ++ piece)%string :: rest.
Proof.
  intros Ht Hs. induction t as [|c t IH]; cbn; [exact Hs|].
  cbn in Ht. apply andb_true_iff in Ht. destruct Ht as [Hc Ht].
  rewrite (IH Ht). apply negb_true_iff in Hc. rewrite Hc. reflexivity.
Qed.

Lemma append_empty_r (s : string) : (s ++ "")%string = s.
Proof. induction s as [|c s IH]; cbn; [reflexivity|rewrite IH; reflexivity]. Qed.

Lemma split_comma_concat t ts :
  Forall (fun x => no_comma x = true) (t :: ts) ->
  split_comma (String.concat ", " (t :: ts)) = t :: map (String " ") ts.
Proof.
  revert t. induction ts as [|t' ts IH]; intros t Hall.
  - inversion Hall as [|? ? Ht _]; subst. cbn [String.concat map].
    rewrite <- (append_empty_r t) at 1.
    rewrite (split_comma_app t "" "" [] Ht eq_refl), append_empty_r.
    reflexivity.
  - inversion Hall as [|? ? Ht Hrest]; subst.
    change (String.concat ", " (t :: t' :: ts))
      with (t ++ ", " ++ String.concat ", " (t' :: ts))%string.
    assert (Hs : split_comma (", " ++ String.concat ", " (t' :: ts))
                 = EmptyString :: String " " t' :: map (String " ") ts).
    { cbn [append split_comma]. rewrite (IH t' Hrest). reflexivity. }
    rewrite (split_comma_app _ _ _ _ Ht Hs), append_empty_r. reflexivity.
Qed.

Lemma strip_leading_space t : strip (String " " t) = strip t.
Proof. reflexivity. Qed.

Lemma import_of_joined ts :
  ts <> [] ->
  Forall (fun t => no_comma t = true /\ strip t = t) ts ->
  import_tags_field (String.concat ", " ts) = ts.
Proof.
  intros Hne Hall. destruct ts as [|t ts]; [contradiction|].
  unfold import_tags_field. rewrite split_comma_concat.
  - inversion Hall as [|? ? [_ Ht] Hrest]; subst. cbn [map]. rewrite Ht.
    f_equal. rewrite map_map. clear Hall Hne Ht.
    induction Hrest as [|t' ts' [_ Ht'] _ IH]; cbn [map]; [reflexivity|].
    rewrite strip_leading_space, Ht', IH. reflexivity.
  - eapply Forall_impl; [|exact Hall]. intros x [Hx _]. exact Hx.
Qed.

(** X21: the Tags field written on export reads back on import as the same
    tags, in sorted order, provided there is at least one tag and no tag
    holds a comma or starts or ends with white space. The field of no tags
    at all reads back as one empty tag. *)
Theorem bash_tags_field_round_trip (curr_tags : list string) :
  (curr_tags <> [] ->
   Forall (fun t => no_comma t = true /\ strip t = t) curr_tags ->
   import_tags_field (export_tags_field curr_tags)
   = list_sort (fun t => t) str_ltb curr_tags /\
   Permutation curr_tags (import_tags_field (export_tags_field curr_tags))) /\
  import_tags_field (export_tags_field []) = [EmptyString].
Proof.
  split; [|reflexivity].
  intros Hne Hall.
  assert (Himp : import_tags_field (export_tags_field curr_tags)
                 = list_sort (fun t => t) str_ltb curr_tags).
  { unfold export_tags_field. apply import_of_joined.
    - intros Hnil.
      pose proof (list_sort_perm (fun t : string => t) str_ltb curr_tags) as P.
      rewrite Hnil in P. apply Permutation_sym, Permutation_nil in P.
      contradiction.
    - eapply Permutation_Forall; [|exact Hall]. apply list_sort_perm. }
  split; [exact Himp|].
  rewrite Himp. apply list_sort_perm.
Qed.

Lemma bash_tags_field_round_trip_example :
  export_tags_field ["Stats"; "Delev"; "C.Water"]%string
  = "C.Water, Delev, Stats"%string /\
  import_tags_field (export_tags_field ["Stats"; "Delev"; "C.Water"]%string)
  = ["C.Water"; "Delev"; "Stats"]%string.
Proof.
  split; [reflexivity|].
  destruct (proj1 (bash_tags_field_round_trip
                     ["Stats"; "Delev"; "C.Water"]%string)) as [Himp _].
  - discriminate.
  - repeat (apply Forall_cons; [split; reflexivity|]). apply Forall_nil.
  - rewrite Himp. reflexivity.
Defined.

(** ** Attribute names *)

Lemma append_inj_l (p a b : string) : (p ++ a)%string = (p ++ b)%string -> a = b.
Proof.
  induction p as [|c p IH]; cbn; [auto|].
  intros [= H]. apply IH. exact H.
Qed.

Lemma append_assoc_r (p a b : string) :
  ((p ++ a) ++ b)%string = (p ++ a ++ b)%string.
Proof.
  induction p as [|c p IH]; cbn; [reflexivity|rewrite IH; reflexivity].
Qed.

(** X22: [ambient_lighting_attrs] gives 29 attribute names for any prefix,
    pairwise distinct, each made of the prefix followed by [_ac_]; the last
    one is the scale. *)
Theorem ambient_lighting_attrs_distinct (attr_prefix : string) :
  List.length (ambient_lighting_attrs attr_prefix) = 29%nat /\
  NoDup (ambient_lighting_attrs attr_prefix) /\
  Forall (fun a => exists x, a = (attr_prefix ++ "_ac_" ++ x)%string)
    (ambient_lighting_attrs attr_prefix) /\
  last (ambient_lighting_attrs attr_prefix) EmptyString
  = (attr_prefix ++ "_ac_scale")%string.
Proof.
  pose (names := flat_map (fun d => color_attrs d false)
     (map (fun t => ("directional_" ++ t)%string)
        ["x_plus"; "x_minus"; "y_plus"; "y_minus"; "z_plus"; "z_minus"]%string
      ++ ["specular"%string]) ++ ["scale"%string]).
  assert (Heq : ambient_lighting_attrs attr_prefix
                = map (fun x => (attr_prefix ++ "_ac_" ++ x)%string) names).
  { unfold ambient_lighting_attrs, names. rewrite map_app. reflexivity. }
  rewrite Heq. split; [|split; [|split]].
  - rewrite length_map. reflexivity.
  - apply Finite.Injective_map_NoDup.
    + intros a b H. apply append_inj_l in H.
      exact (append_inj_l "_ac_" a b H).
    + assert (Hfix : nodup string_dec names = names) by (vm_compute; reflexivity).
      rewrite <- Hfix. apply NoDup_nodup.
  - apply Forall_forall. intros a Ha. apply in_map_iff in Ha.
    destruct Ha as (x & <- & _). eauto.
  - reflexivity.
Qed.

(** ** GetVATSValue conditions *)

Lemma byte_val_range (b : byte) : 0 <= byte_val b < 256.
Proof.
  unfold byte_val. pose proof (Byte.to_N_bounded b). lia.
Qed.

Lemma byte_of_Z_mod (z : Z) (b : byte) :
  z mod 256 = byte_val b -> byte_of_Z z = b.
Proof.
  intros H. unfold byte_of_Z. rewrite H. unfold byte_val.
  rewrite N2Z.id, Byte.of_to_N. reflexivity.
Qed.

Lemma split_low_byte (v k : Z) :
  0 <= v < 256 -> (v + 256 * k) mod 256 = v /\ (v + 256 * k) / 256 = k.
Proof.
  intros Hv. rewrite (Z.mul_comm 256 k). split.
  - rewrite Z.mod_add by lia. apply Z.mod_small. exact Hv.
  - rewrite Z.div_add by lia. rewrite Z.div_small by exact Hv. reflexivity.
Qed.

Lemma le_uint32_range (b0 b1 b2 b3 : byte) :
  0 <= le_uint32 b0 b1 b2 b3 < 2 ^ 32.
Proof.
  unfold le_uint32.
  pose proof (byte_val_range b0). pose proof (byte_val_range b1).
  pose proof (byte_val_range b2). pose proof (byte_val_range b3).
  change (2 ^ 32) with 4294967296. lia.
Qed.

Lemma struct_pack_I_le_uint32 (b0 b1 b2 b3 : byte) :
  struct_pack_I (le_uint32 b0 b1 b2 b3) = Ok [b0; b1; b2; b3].
Proof.
  pose proof (le_uint32_range b0 b1 b2 b3) as Hr.
  unfold struct_pack_I.
  destruct (Z.leb_spec 0 (le_uint32 b0 b1 b2 b3)) as [_|]; [|lia].
  destruct (Z.ltb_spec (le_uint32 b0 b1 b2 b3) (2 ^ 32)) as [_|]; [|lia].
  cbn [andb].
  pose proof (byte_val_range b0) as H0. pose proof (byte_val_range b1) as H1.
  pose proof (byte_val_range b2) as H2. pose proof (byte_val_range b3) as H3.
  set (k1 := byte_val b1 + 256 * (byte_val b2 + 256 * byte_val b3)).
  set (k2 := byte_val b2 + 256 * byte_val b3).
  assert (E0 : le_uint32 b0 b1 b2 b3 = byte_val b0 + 256 * k1) by reflexivity.
  assert (E1 : k1 = byte_val b1 + 256 * k2) by reflexivity.
  assert (E2 : k2 = byte_val b2 + 256 * byte_val b3) by reflexivity.
  destruct (split_low_byte (byte_val b0) k1 H0) as [M0 D0].
  destruct (split_low_byte (byte_val b1) k2 H1) as [M1 D1].
  destruct (split_low_byte (byte_val b2) (byte_val b3) H2) as [M2 D2].
  assert (S8 : Z.shiftr (le_uint32 b0 b1 b2 b3) 8 = k1).
  { rewrite Z.shiftr_div_pow2 by lia. change (2 ^ 8) with 256.
    rewrite E0. exact D0. }
  assert (S16 : Z.shiftr (le_uint32 b0 b1 b2 b3) 16 = k2).
  { rewrite Z.shiftr_div_pow2 by lia. change (2 ^ 16) with (256 * 256).
    rewrite <- Z.div_div by lia. rewrite E0, D0, E1. exact D1. }
  assert (S24 : Z.shiftr (le_uint32 b0 b1 b2 b3) 24 = byte_val b3).
  { rewrite Z.shiftr_div_pow2 by lia. change (2 ^ 24) with (256 * 256 * 256).
    rewrite <- !Z.div_div by lia. rewrite E0, D0, E1, D1, E2. exact D2. }
  rewrite S8, S16, S24.
  rewrite (byte_of_Z_mod _ b0) by (rewrite E0; exact M0).
  rewrite (byte_of_Z_mod _ b1) by (rewrite E1; exact M1).
  rewrite (byte_of_Z_mod _ b2) by (rewrite E2; exact M2).
  rewrite (byte_of_Z_mod _ b3) by (apply Z.mod_small; exact H3).
  reflexivity.
Qed.

(** Packing what was unpacked gives the four bytes back, for each of the
    three formats. *)
Lemma struct_pack_unpack (fmt : struct_fmt) (b0 b1 b2 b3 : byte) :
  exists v,
    struct_unpack fmt (PBytes [b0; b1; b2; b3]) = Ok [v] /\
    struct_pack fmt v = Ok [b0; b1; b2; b3].
Proof.
  pose proof (le_uint32_range b0 b1 b2 b3) as Hr.
  destruct fmt; cbn [struct_unpack struct_pack].
  - eexists. split; [reflexivity|]. apply struct_pack_I_le_uint32.
  - eexists. split; [reflexivity|]. cbn [struct_pack].
    change (2 ^ 31) with 2147483648 in *.
    change (2 ^ 32) with 4294967296 in *.
    destruct (Z.ltb_spec (le_uint32 b0 b1 b2 b3) 2147483648).
    + destruct (Z.leb_spec (- (2147483648)) (le_uint32 b0 b1 b2 b3));
        [|lia].
      destruct (Z.ltb_spec (le_uint32 b0 b1 b2 b3) 2147483648); [|lia].
      cbn [andb]. rewrite Z.mod_small by lia.
      apply struct_pack_I_le_uint32.
    + destruct (Z.leb_spec (- (2147483648))
                  (le_uint32 b0 b1 b2 b3 - 4294967296)); [|lia].
      destruct (Z.ltb_spec (le_uint32 b0 b1 b2 b3 - 4294967296) 2147483648);
        [|lia].
      cbn [andb].
      replace ((le_uint32 b0 b1 b2 b3 - 4294967296) mod 4294967296)
        with (le_uint32 b0 b1 b2 b3).
      * apply struct_pack_I_le_uint32.
      * symmetry.
        replace (le_uint32 b0 b1 b2 b3 - 4294967296)
          with (le_uint32 b0 b1 b2 b3 + (-1) * 4294967296) by lia.
        rewrite Z.mod_add by lia. apply Z.mod_small. lia.
  - eexists. split; reflexivity.
Qed.

(** X23: the decoding of [param2] that [MelCtdaFo3.load_mel] adds is undone
    by [dumpData]: for a record the base class loaded with four bytes in
    [param2], loading succeeds and dumping the loaded record hands the base
    class exactly the record it had loaded, whatever the function index and
    [param1]. *)
Theorem MelCtdaFo3_load_then_dump
    (_getvatsvalue_ifunc : Z)
    (MelCtda_load_mel : stateful ctda_record unit)
    (MelCtda_dumpData : stateful ctda_record (list byte))
    (r0 r' : ctda_record) (b0 b1 b2 b3 : byte) :
  MelCtda_load_mel r0 = (r', Ok tt) ->
  param2 r' = PBytes [b0; b1; b2; b3] ->
  exists r1,
    MelCtdaFo3_load_mel _getvatsvalue_ifunc MelCtda_load_mel r0 = (r1, Ok tt) /\
    MelCtdaFo3_dumpData _getvatsvalue_ifunc MelCtda_dumpData r1
    = MelCtda_dumpData r'.
Proof.
  intros Hload Hp2.
  unfold MelCtdaFo3_load_mel, MelCtdaFo3_dumpData, sbind. rewrite Hload.
  destruct (ifunc r' =? _getvatsvalue_ifunc) eqn:Ei.
  - destruct (struct_pack_unpack (_vats_param2_fmt (param1 r')) b0 b1 b2 b3)
      as (v & Hun & Hpk).
    rewrite Hp2, Hun. cbn [bind getitem].
    exists (set_param2 v r'). split; [reflexivity|].
    cbn [set_param2 ifunc param1 param2]. rewrite Ei, Hpk.
    destruct r' as [i p1 p2 ro rf]. cbn in Hp2 |- *. subst p2. reflexivity.
  - exists r'. split; [reflexivity|]. rewrite Ei. reflexivity.
Qed.

Lemma MelCtdaFo3_load_then_dump_example :
  let r := mkCtda 408 (PInt 5) (PBytes [xfe; xff; xff; xff]) 0 PNone in
  let load := MelCtdaFo3_load_mel 408 (fun r => (r, Ok tt)) in
  let dump := MelCtdaFo3_dumpData 408 (fun r => (r, Ok [])) in
  load r = (set_param2 (PInt (-2)) r, Ok tt) /\
  dump (set_param2 (PInt (-2)) r) = (r, Ok []).
Proof.
  intros r load dump.
  destruct (MelCtdaFo3_load_then_dump 408 (fun r => (r, Ok tt))
              (fun r => (r, Ok [])) r r xfe xff xff xff eq_refl eq_refl)
    as (r1 & Hl & Hd).
  assert (E : r1 = set_param2 (PInt (-2)) r).
  { vm_compute in Hl. injection Hl as <-. reflexivity. }
  subst r1. split; [exact Hl|exact Hd].
Defined.

(** X24: whenever [mapFids] treats [param2] of a GetVATSValue condition as a
    form id ([param1] in [_vats_param2_fid]), [load_mel] has decoded that
    [param2] as an unsigned 32-bit int: the two tables agree. *)
Theorem MelCtdaFo3_fid_param2_is_uint32
    (_getvatsvalue_ifunc : Z)
    (MelCtda_load_mel : stateful ctda_record unit)
    (r0 r' : ctda_record) (b0 b1 b2 b3 : byte) :
  MelCtda_load_mel r0 = (r', Ok tt) ->
  ifunc r' = _getvatsvalue_ifunc ->
  param2 r' = PBytes [b0; b1; b2; b3] ->
  in_vats_param2_fid (param1 r') = true ->
  _vats_param2_fmt (param1 r') = Fmt_I /\
  MelCtdaFo3_load_mel _getvatsvalue_ifunc MelCtda_load_mel r0
  = (set_param2 (PInt (le_uint32 b0 b1 b2 b3)) r', Ok tt) /\
  0 <= le_uint32 b0 b1 b2 b3 < 2 ^ 32.
Proof.
  intros Hload Hi Hp2 Hfid.
  assert (Hfmt : _vats_param2_fmt (param1 r') = Fmt_I).
  { destruct (param1 r') as [|z| | | |]; try discriminate.
    cbn in Hfid. rewrite !orb_true_iff, !Z.eqb_eq in Hfid.
    destruct Hfid as [->|[->|[->|[->|[->|[->|H]]]]]];
      [reflexivity..|discriminate]. }
  split; [exact Hfmt|]. split; [|apply le_uint32_range].
  unfold MelCtdaFo3_load_mel, sbind. rewrite Hload, Hi, Z.eqb_refl.
  rewrite Hfmt, Hp2. reflexivity.
Qed.

Lemma MelCtdaFo3_fid_param2_is_uint32_example :
  let r := mkCtda 408 (PInt 9) (PBytes [x03; x00; x00; x01]) 0 PNone in
  MelCtdaFo3_load_mel 408 (fun r => (r, Ok tt)) r
  = (set_param2 (PInt 0x01000003) r, Ok tt).
Proof.
  intros r.
  exact (proj1 (proj2 (MelCtdaFo3_fid_param2_is_uint32 408
                         (fun r => (r, Ok tt)) r r x03 x00 x00 x01
                         eq_refl eq_refl eq_refl eq_refl))).
Defined.

(** X25: dumping a GetVATSValue condition leaves the packed bytes in
    [param2]; when the format of that [param2] is an integer one, dumping
    the record a second time raises a struct error before anything is
    written. *)
Theorem MelCtdaFo3_dump_twice_fails
    (_getvatsvalue_ifunc : Z)
    (MelCtda_dumpData : stateful ctda_record (list byte))
    (r r2 : ctda_record) (b out : list byte) :
  ifunc r = _getvatsvalue_ifunc ->
  _vats_param2_fmt (param1 r) <> Fmt_4s ->
  struct_pack (_vats_param2_fmt (param1 r)) (param2 r) = Ok b ->
  MelCtda_dumpData (set_param2 (PBytes b) r) = (r2, Ok out) ->
  ifunc r2 = ifunc r -> param1 r2 = param1 r -> param2 r2 = PBytes b ->
  MelCtdaFo3_dumpData _getvatsvalue_ifunc MelCtda_dumpData r = (r2, Ok out) /\
  MelCtdaFo3_dumpData _getvatsvalue_ifunc MelCtda_dumpData r2
  = (r2, Raise StructError).
Proof.
  intros Hi Hfmt Hpk Hsuper Hi2 Hp1 Hp2.
  unfold MelCtdaFo3_dumpData, sbind. split.
  - rewrite Hi, Z.eqb_refl, Hpk. rewrite Hsuper. reflexivity.
  - rewrite Hi2, Hi, Z.eqb_refl, Hp1, Hp2.
    destruct (_vats_param2_fmt (param1 r)); try reflexivity.
    contradiction.
Qed.

Lemma MelCtdaFo3_dump_twice_fails_example :
  let r := mkCtda 408 (PInt 9) (PInt 0x01000003) 0 PNone in
  let r2 := set_param2 (PBytes [x03; x00; x00; x01]) r in
  let dump := MelCtdaFo3_dumpData 408 (fun r => (r, Ok [x2a])) in
  dump r = (r2, Ok [x2a]) /\ dump r2 = (r2, Raise StructError).
Proof.
  intros r r2 dump.
  apply (MelCtdaFo3_dump_twice_fails 408 (fun r => (r, Ok [x2a])) r r2
           [x03; x00; x00; x01] [x2a]); try reflexivity.
  discriminate.
Defined.
